(** * Sumini Pro Suno Architect: prompt assembly, transport fallback,
      reply parser and chat session

    A shallow embedding of [src/services/geminiService.ts] and of the
    [handleSend] handler of [src/App.tsx].

    The service file carries two revisions of the same module: the
    "SUMINI v7" one (first copy) and the "SUMINI v8" one (second copy, the
    current one).  Both are embedded, in the modules [V7] and [V8]; what
    they share (JavaScript strings, the regular expressions of the parser)
    comes first. *)

From Stdlib Require Import String Ascii NArith ZArith List Bool Lia.
From stdpp Require gmap.
Import ListNotations.

(** ** JavaScript strings *)

(** A JavaScript string is a sequence of UTF-16 code units. *)
Module Js.

Abbreviation char := N (only parsing).
Abbreviation str := (list N) (only parsing).

(** An ASCII literal of the source, as code units. *)
Definition lit (s : string) : str := map N_of_ascii (list_ascii_of_string s).

Definition LF : char := 10%N.
Definition COMMA : char := 44%N.

(** ECMAScript [LineTerminator]: LF, CR, LS, PS. *)
Definition is_line_terminator (c : char) : bool :=
  ((c =? 10) || (c =? 13) || (c =? 8232) || (c =? 8233))%N.

(** ECMAScript [WhiteSpace]: TAB, VT, FF, SP, NBSP, ZWNBSP and category Zs. *)
Definition is_white_space (c : char) : bool :=
  ((c =? 9) || (c =? 11) || (c =? 12) || (c =? 32) || (c =? 160)
   || (c =? 5760) || ((8192 <=? c) && (c <=? 8202))
   || (c =? 8239) || (c =? 8287) || (c =? 12288) || (c =? 65279))%N.

(** What [\s] matches and what [trim] strips: white space and line
    terminators. *)
Definition is_space (c : char) : bool := is_white_space c || is_line_terminator c.

(** What [.] matches (no [s] flag): anything but a line terminator. *)
Definition is_dot (c : char) : bool := negb (is_line_terminator c).

(** What [[\s\S]] matches: any code unit. *)
Definition is_any (_ : char) : bool := true.

(** The longest prefix of [s] whose characters all satisfy [p], and what
    is behind it. *)
Fixpoint take_while (p : char -> bool) (s : str) : str :=
  match s with
  | c :: s' => if p c then c :: take_while p s' else []
  | [] => []
  end.

Fixpoint skip_while (p : char -> bool) (s : str) : str :=
  match s with
  | c :: s' => if p c then skip_while p s' else s
  | [] => []
  end.

Definition trimStart (s : str) : str := skip_while is_space s.

Definition trimEnd (s : str) : str := rev (trimStart (rev s)).

(** [String.prototype.trim]. *)
Definition trim (s : str) : str := trimEnd (trimStart s).

(** Truthiness of a string: non-empty. *)
Definition truthy (s : str) : bool :=
  match s with [] => false | _ :: _ => true end.

Definition eqb (a b : str) : bool :=
  if list_eq_dec N.eq_dec a b then true else false.

(** [s.startsWith(p)], returning the rest of [s] behind [p]. *)
Fixpoint strip_prefix (p s : str) : option str :=
  match p with
  | [] => Some s
  | a :: p' =>
      match s with
      | c :: s' => if (c =? a)%N then strip_prefix p' s' else None
      | [] => None
      end
  end.

(** [s.includes(p)]. *)
Fixpoint includes (p s : str) : bool :=
  match strip_prefix p s with
  | Some _ => true
  | None => match s with [] => false | _ :: s' => includes p s' end
  end.

(** The text before and the text behind the first occurrence of [p]
    ([s.indexOf(p)] and the two slices around it). *)
Fixpoint find (p s : str) : option (str * str) :=
  match strip_prefix p s with
  | Some rest => Some ([], rest)
  | None =>
      match s with
      | [] => None
      | c :: s' =>
          match find p s' with
          | Some (b, a) => Some (c :: b, a)
          | None => None
          end
      end
  end.

(** [s.split(sep)] for a one-character separator. *)
Fixpoint split (sep : char) (s : str) : list str :=
  match s with
  | [] => [[]]
  | c :: s' =>
      if (c =? sep)%N then [] :: split sep s'
      else match split sep s' with
           | piece :: rest => (c :: piece) :: rest
           | [] => [[c]]
           end
  end.

(** [s.replace(/a/g, b)] for single characters [a] and [b]. *)
Definition replace_all (a b : char) (s : str) : str :=
  map (fun c => if (c =? a)%N then b else c) s.

(** [pieces.join(sep)]. *)
Fixpoint join (sep : str) (pieces : list str) : str :=
  match pieces with
  | [] => []
  | [p] => p
  | p :: rest => p ++ sep ++ join sep rest
  end.

End Js.
Import Js.

(** ** Regular expressions

    The backtracking semantics of the fragment of ECMAScript regular
    expressions the parser uses: literal text, a character class, a greedy
    or lazy star and a greedy plus over a character class, one capture
    group, a lookahead and sequencing.  The matcher is written in
    continuation-passing style: the continuation is the rest of the pattern,
    and a quantifier backtracks by calling it at its next candidate end. *)
Module Regex.

Inductive regex : Type :=
| Chars (l : str)
| Class (p : char -> bool)
| Star (greedy : bool) (p : char -> bool)
| Plus (p : char -> bool)
| Group (r : regex)
| Ahead (r : regex)
| Seq (r1 r2 : regex).

(** The value of capture group 1: [None] while it has not taken part. *)
Definition capture := option str.

Definition cont := str -> capture -> option capture.

(** [p*]: longest run first, giving characters back one at a time. *)
Fixpoint star_greedy (p : char -> bool) (s : str) (k : str -> option capture)
  : option capture :=
  match s with
  | c :: s' =>
      if p c then
        match star_greedy p s' k with
        | Some r => Some r
        | None => k s
        end
      else k s
  | [] => k s
  end.

(** [p*?]: shortest run first, taking one more character at a time. *)
Fixpoint star_lazy (p : char -> bool) (s : str) (k : str -> option capture)
  : option capture :=
  match k s with
  | Some r => Some r
  | None =>
      match s with
      | c :: s' => if p c then star_lazy p s' k else None
      | [] => None
      end
  end.

Fixpoint run (r : regex) (s : str) (cap : capture) (k : cont) : option capture :=
  match r with
  | Chars l =>
      match strip_prefix l s with
      | Some s' => k s' cap
      | None => None
      end
  | Class p =>
      match s with
      | c :: s' => if p c then k s' cap else None
      | [] => None
      end
  | Star true p => star_greedy p s (fun s' => k s' cap)
  | Star false p => star_lazy p s (fun s' => k s' cap)
  | Plus p =>
      match s with
      | c :: s' => if p c then star_greedy p s' (fun s'' => k s'' cap) else None
      | [] => None
      end
  | Group r1 =>
      run r1 s cap (fun s' _ => k s' (Some (firstn (length s - length s') s)))
  | Ahead r1 =>
      match run r1 s cap (fun _ c => Some c) with
      | Some c => k s c
      | None => None
      end
  | Seq r1 r2 => run r1 s cap (fun s' c => run r2 s' c k)
  end.

(** A match anchored at the head of [s]. *)
Definition match_here (r : regex) (s : str) : option capture :=
  run r s None (fun _ c => Some c).

(** [RegExp.prototype.exec] without flags: the leftmost start that
    matches. *)
Fixpoint exec (r : regex) (s : str) : option capture :=
  match match_here r s with
  | Some c => Some c
  | None => match s with [] => None | _ :: s' => exec r s' end
  end.

(** [text.match(r)?.[1]?.trim()]. *)
Definition match1_trim (r : regex) (text : str) : option str :=
  match exec r text with
  | Some (Some c) => Some (trim c)
  | _ => None
  end.

End Regex.
Import Regex.

(** ** The reply parser *)

Definition hdrTitle : str := Eval cbv in lit "## Title:".
Definition hdrVoice : str := Eval cbv in lit "## Voice:".
Definition hdrTags : str := Eval cbv in lit "## Tags:".
Definition hdrStyle : str := Eval cbv in lit "## Style:".
Definition hdrLyrics : str := Eval cbv in lit "## Lyrics:".

(** [/## Title:\s*(.+)/] *)
Definition reTitle : regex :=
  Seq (Chars hdrTitle) (Seq (Star true is_space) (Group (Plus is_dot))).

(** [/## Voice:\s*([\s\S]*?)(?=## Tags:)/] and its two siblings. *)
Definition reBlock (hdr next : str) : regex :=
  Seq (Chars hdr)
      (Seq (Star true is_space)
           (Seq (Group (Star false is_any)) (Ahead (Chars next)))).

Definition reVoice : regex := reBlock hdrVoice hdrTags.
Definition reTags : regex := reBlock hdrTags hdrStyle.
Definition reStyle : regex := reBlock hdrStyle hdrLyrics.

(** [/## Lyrics:\s*(G)/] with G the greedy [[\s\S]*]: the rest of the text. *)
Definition reLyrics : regex :=
  Seq (Chars hdrLyrics) (Seq (Star true is_space) (Group (Star true is_any))).

Definition notSpecified : str := Eval cbv in lit "Not specified".

Record ParsedSong : Type := mkSong {
  title : str;
  voice : str;
  style : str;
  tags : list str;
  lyrics : str
}.

(** The five extractions at the head of [parseSongFromText], the same in
    both revisions. *)
Definition titleOf (text : str) : option str := match1_trim reTitle text.
Definition voiceOf (text : str) : str :=
  match match1_trim reVoice text with
  | Some v => v
  | None => notSpecified
  end.
Definition rawTagsOf (text : str) : option str := match1_trim reTags text.
Definition styleOf (text : str) : option str := match1_trim reStyle text.
Definition lyricsOf (text : str) : option str := match1_trim reLyrics text.

(** [!x] for an optional string: absent or empty. *)
Definition missing (x : option str) : bool :=
  match x with
  | Some (_ :: _) => false
  | _ => true
  end.

(** ** Requests *)

(** Modelled from the spec: the enumeration [GeneratorMode] is declared in
    [types.ts], which is not among the sources.  The spec lists seven
    modes; the member names are those the service and [App.tsx] use. *)
Inductive GeneratorMode : Type :=
| NORMAL | RANDOM | CRAZY | KPOP_RANDOM | KPOP_3_VOICES | TRENDING | THINKING.

(** Modelled from the spec: the enumeration [LyricsLanguage] is declared in
    [types.ts] too; the spec lists three languages. *)
Inductive LyricsLanguage : Type := ENGLISH | ARABIC | MIXED.

Definition GeneratorMode_eqb (a b : GeneratorMode) : bool :=
  match a, b with
  | NORMAL, NORMAL | RANDOM, RANDOM | CRAZY, CRAZY | KPOP_RANDOM, KPOP_RANDOM
  | KPOP_3_VOICES, KPOP_3_VOICES | TRENDING, TRENDING | THINKING, THINKING => true
  | _, _ => false
  end.

(** Modelled from the spec: [StudioSettings] is declared in [types.ts]; its
    fields are those the service reads.  The three mood values are numbers
    from 0 to 100; gender, texture and structure are kept as the strings
    the service compares and interpolates. *)
Record Mood : Type := mkMood { darkBright : Z; cleanGritty : Z; energy : Z }.

Record Vocal : Type := mkVocal { gender : str; texture : str }.

Record StudioSettings : Type := mkStudio {
  mood : Mood;
  vocal : Vocal;
  structure : str
}.

(** Modelled from the spec: [AppSettings] is declared in [types.ts]; this
    is its [generation] part, as the service reads it.  The temperature is
    handed to the model untouched, so its type is left open. *)
Record Generation (Temperature : Type) : Type := mkGeneration {
  modelPreference : str;
  temperature : Temperature
}.
Arguments mkGeneration {Temperature}.
Arguments modelPreference {Temperature}.
Arguments temperature {Temperature}.

Definition Any : str := Eval cbv in lit "Any".
Definition Auto : str := Eval cbv in lit "Auto".
Definition quality : str := Eval cbv in lit "quality".
Definition gemini_3_pro_preview : str := Eval cbv in lit "gemini-3-pro-preview".
Definition gemini_2_5_flash : str := Eval cbv in lit "gemini-2.5-flash".

(** The object literal [modePrompts]: a table from mode to canned text. *)
Definition ModePrompts := list (GeneratorMode * str).

(** [modePrompts[mode]] *)
Fixpoint lookupMode (mode : GeneratorMode) (table : ModePrompts) : option str :=
  match table with
  | [] => None
  | (m, text) :: rest => if GeneratorMode_eqb mode m then Some text else lookupMode mode rest
  end.

(** An entry of the conversation history handed to the model: the role
    and the text of its one part. *)
Definition HistoryEntry : Type := (str * str)%type.

(** The session that [createSession] asks the SDK for, and the message
    sent on it.  The system instruction, the same constant in every
    session, is left out. *)
Record Call (Temperature : Type) : Type := mkCall {
  callModel : str;
  callTemperature : Temperature;
  callThinkingBudget : option Z;
  callSearchTool : bool;
  callHistory : list HistoryEntry;
  callMessage : str
}.
Arguments mkCall {Temperature}.
Arguments callHistory {Temperature}.
Arguments callModel {Temperature}.
Arguments callTemperature {Temperature}.
Arguments callThinkingBudget {Temperature}.
Arguments callSearchTool {Temperature}.
Arguments callMessage {Temperature}.

(** What [chat.sendMessage] settles to: a response, whose [text] may be
    absent, or a thrown error. *)
Inductive Outcome (Error : Type) : Type :=
| Reply (text : option str)
| Failure (err : Error).
Arguments Reply {Error}.
Arguments Failure {Error}.

(** The model service, seen from the caller: the outcome of the n-th call
    made in one invocation. *)
Definition Service (Temperature Error : Type) : Type :=
  nat -> Call Temperature -> Outcome Error.

Definition nl : str := [LF].

(** ** Revision 7 of the service *)

Module V7.

(** [rawTags ? rawTags.split(",").map(t => t.trim()).filter(Boolean) : []] *)
Definition tagsOf (rawTags : option str) : list str :=
  match rawTags with
  | Some raw =>
      if truthy raw then filter truthy (map trim (split COMMA raw)) else []
  | None => []
  end.

Definition parseSongFromText (text : str) : option ParsedSong :=
  let title := titleOf text in
  let voice := voiceOf text in
  let rawTags := rawTagsOf text in
  let style := styleOf text in
  let lyrics := lyricsOf text in
  if missing title || missing style || missing lyrics then None
  else
    match title, style, lyrics with
    | Some t, Some st, Some ly =>
        Some (mkSong t voice st (tagsOf rawTags) ly)
    | _, _, _ => None
    end.


Definition trendingEntry (useSearch : bool) : str * bool :=
  let useSearch := true in
  (lit "Search for current viral trends (2024-2025). Write a hit song referencing the trend.",
   useSearch).

Definition modePrompts (useSearch : bool) : ModePrompts * bool :=
  let random :=
    lit "Create a random commercially-strong hit in any coherent genre. Extremely catchy hooks." in
  let crazy := lit "Create an experimental hybrid song combining incompatible genres." in
  let kpop := lit "Create a top-tier K-Pop track with strong English hooks." in
  let trio :=
    lit "Create a K-Pop trio track. In the '## Voice' section, explicitly list distinct vocal styles for [Member A], [Member B], and [Member C]. In '## Lyrics', STRICTLY use bracketed tags like [Member A], [Member B] to indicate singer changes. DO NOT include singer names as plain text." in
  let '(trending, useSearch) := trendingEntry useSearch in
  ([(RANDOM, random); (CRAZY, crazy); (KPOP_RANDOM, kpop); (KPOP_3_VOICES, trio);
    (TRENDING, trending)],
   useSearch).

Definition modeLogic (prompt : str) (mode : GeneratorMode) : str * bool :=
  let finalPrompt := prompt in
  let useSearch := false in
  let '(table, useSearch) := modePrompts useSearch in
  let finalPrompt :=
    match lookupMode mode table with
    | Some canned => if truthy canned then canned else finalPrompt
    | None => finalPrompt
    end in
  (finalPrompt, useSearch).

(** [vocalInstruction]: each of the two fields is written only when it is
    not ['Any']. *)
Definition vocalInstruction (vocal : Vocal) : str :=
  if negb (eqb (gender vocal) Any) || negb (eqb (texture vocal) Any)
  then lit "[CONSTRAINT: Voice must be " ++
       (if negb (eqb (texture vocal) Any) then texture vocal else []) ++ lit " " ++
       (if negb (eqb (gender vocal) Any) then gender vocal else []) ++ lit "]"
  else [].

Definition langConstraint (lyricsLanguage : LyricsLanguage) : str :=
  match lyricsLanguage with
  | ARABIC =>
      lit "Write lyrics strictly in ARABIC (Egyptian/Gulf dialect). Style & Tags must remain ENGLISH."
  | MIXED => lit "Write lyrics in mixed Arabic + English. Style & Tags remain ENGLISH."
  | ENGLISH => lit "Write lyrics in English only."
  end.

Definition moodDesc (mood : Mood) : list str :=
  ((if (darkBright mood <? 30)%Z then [lit "Dark, Moody, Minor Key"]
    else if (darkBright mood >? 70)%Z then [lit "Bright, Uplifting, Major Key"] else [])
   ++
   (if (cleanGritty mood <? 30)%Z then [lit "Clean, Polished, High-Fidelity"]
    else if (cleanGritty mood >? 70)%Z then [lit "Gritty, Lo-fi, Distorted, Saturated"]
    else [])
   ++
   (if (energy mood <? 30)%Z then [lit "Chill, Laid-back, Low Energy, Ambient"]
    else if (energy mood >? 70)%Z then [lit "High Energy, Hype, Aggressive, Banger"]
    else [])).

Definition structureInstruction (structure : str) : str :=
  if negb (eqb structure Auto)
  then lit "[CONSTRAINT: Use strict " ++ structure ++ lit " structure template]"
  else [].

Definition orElse (x fallback : str) : str := if truthy x then x else fallback.

(** The template literal appended to [finalPrompt]; its lines are indented
    by two spaces. *)
Definition studioSettingsBlock (settings : StudioSettings)
    (isRadioEdit hasIntro : bool) (lyricsLanguage : LyricsLanguage) : str :=
  nl ++ nl ++ lit "=== STUDIO SETTINGS ===" ++ nl ++
  lit "  Tone: " ++
    orElse (join (lit ", ") (moodDesc (mood settings))) (lit "Balanced") ++ nl ++
  lit "  " ++ vocalInstruction (vocal settings) ++ nl ++
  lit "  " ++ structureInstruction (structure settings) ++ nl ++
  lit "  Language: " ++ langConstraint lyricsLanguage ++ nl ++
  lit "  " ++ (if hasIntro then lit "Include [Instrumental Intro]" else []) ++ nl ++
  lit "  " ++ (if isRadioEdit then lit "Keep under 3 mins (Radio Edit)" else []) ++ nl ++
  lit "  ".

Definition composePrompt (prompt : str) (mode : GeneratorMode)
    (settings : StudioSettings) (isRadioEdit hasIntro : bool)
    (lyricsLanguage : LyricsLanguage) : str :=
  fst (modeLogic prompt mode)
  ++ studioSettingsBlock settings isRadioEdit hasIntro lyricsLanguage.

Section Generator.

Context {Temperature Error : Type}.

Definition modelName (generation : Generation Temperature) : str :=
  if eqb (modelPreference generation) quality
  then gemini_3_pro_preview else gemini_2_5_flash.

Definition createSession (generation : Generation Temperature)
    (history : list HistoryEntry) (finalPrompt model : str) (enableTools : bool)
  : Call Temperature :=
  mkCall model (temperature generation) None enableTools history finalPrompt.

Definition generateContentResponse
    (prompt : str) (mode : GeneratorMode) (settings : StudioSettings)
    (generation : Generation Temperature) (isRadioEdit hasIntro : bool)
    (lyricsLanguage : LyricsLanguage) (history : list HistoryEntry)
    (service : Service Temperature Error) (signalAborted : option bool)
  : list (Call Temperature) * Outcome Error :=
  let useSearch := snd (modeLogic prompt mode) in
  let finalPrompt := composePrompt prompt mode settings isRadioEdit hasIntro lyricsLanguage in
  let first := createSession generation history finalPrompt (modelName generation) useSearch in
  match service 0 first with
  | Reply text => ([first], Reply text)
  | Failure err =>
      match signalAborted with
      | Some true => ([first], Failure err)
      | _ =>
          let second := createSession generation history finalPrompt gemini_2_5_flash false in
          ([first; second], service 1 second)
      end
  end.

End Generator.

End V7.

(** ** Revision 8 of the service, the current one *)

Module V8.

(** [rawTags?.replace(/\n/g, ",").split(",").map(t => t.trim())
      .filter(Boolean) ?? []] *)
Definition tagsOf (rawTags : option str) : list str :=
  match rawTags with
  | Some raw => filter truthy (map trim (split COMMA (replace_all LF COMMA raw)))
  | None => []
  end.

Definition parseSongFromText (text : str) : option ParsedSong :=
  let title := titleOf text in
  let voice := voiceOf text in
  let rawTags := rawTagsOf text in
  let style := styleOf text in
  let lyrics := lyricsOf text in
  if missing title || missing style || missing lyrics then None
  else
    match title, style, lyrics with
    | Some t, Some st, Some ly =>
        Some (mkSong t voice st (tagsOf rawTags) ly)
    | _, _, _ => None
    end.


(** The entry for [TRENDING] is an arrow function called where the literal
    stands: it assigns [useSearch] and yields the text. *)
Definition trendingEntry (useSearch : bool) : str * bool :=
  let useSearch := true in
  (lit "Search current 2024" ++ [8211%N] ++ lit "2025 viral music trends and write a hit.",
   useSearch).

(** Evaluating the literal evaluates every entry, top to bottom, threading
    the variable [useSearch] through. *)
Definition modePrompts (useSearch : bool) : ModePrompts * bool :=
  let random := lit "Create a commercially strong hit with an unforgettable hook." in
  let crazy := lit "Fuse incompatible genres into an experimental but coherent track." in
  let kpop := lit "Create a top-tier K-Pop song with strong English hooks." in
  let trio := lit "Create a K-Pop trio. Use strict bracketed singer tags." in
  let '(trending, useSearch) := trendingEntry useSearch in
  let thinking := lit "Compose a complex, layered musical masterpiece." in
  ([(RANDOM, random); (CRAZY, crazy); (KPOP_RANDOM, kpop); (KPOP_3_VOICES, trio);
    (TRENDING, trending); (THINKING, thinking)],
   useSearch).

(** The mode logic: [finalPrompt] and [useSearch] behind it. *)
Definition modeLogic (prompt : str) (mode : GeneratorMode) : str * bool :=
  let finalPrompt := prompt in
  let useSearch := false in
  let '(table, useSearch) := modePrompts useSearch in
  let finalPrompt :=
    match lookupMode mode table with
    | Some canned =>
        if truthy canned then
          if GeneratorMode_eqb mode THINKING && truthy (trim prompt)
          then prompt else canned
        else finalPrompt
    | None => finalPrompt
    end in
  (finalPrompt, useSearch).

Definition moodDesc (mood : Mood) (structure : str) : list str :=
  ((if (darkBright mood <? 30)%Z then [lit "Dark, Minor Key"]
    else if (darkBright mood >? 70)%Z then [lit "Bright, Major Key"] else [])
   ++
   (if (cleanGritty mood >? 70)%Z then [lit "Gritty, Saturated, Lo-fi"]
    else if (cleanGritty mood <? 30)%Z then [lit "Clean, Polished"] else [])
   ++
   (if (energy mood >? 70)%Z then
      [if includes (lit "EDM") structure
       then lit "Festival Energy, Big Drops"
       else lit "High Energy, Aggressive Groove"]
    else if (energy mood <? 30)%Z then [lit "Chill, Ambient, Low Energy"] else [])).

Definition vocalConstraint (vocal : Vocal) : str :=
  if negb (eqb (gender vocal) Any) || negb (eqb (texture vocal) Any)
  then lit "[CONSTRAINT: Voice must be " ++ texture vocal ++ lit " " ++ gender vocal ++ lit "]"
  else [].

Definition structureConstraint (structure : str) : str :=
  if negb (eqb structure Auto)
  then lit "[CONSTRAINT: Use strict " ++ structure ++ lit " structure]"
  else [].

Definition langConstraint (lyricsLanguage : LyricsLanguage) : str :=
  match lyricsLanguage with
  | ARABIC => lit "Lyrics strictly in ARABIC (Egyptian/Gulf). Style & Tags in ENGLISH."
  | MIXED => lit "Lyrics in Arabic + English mix. Style & Tags in ENGLISH."
  | ENGLISH => lit "Lyrics in ENGLISH only."
  end.

(** [x || fallback] on strings. *)
Definition orElse (x fallback : str) : str := if truthy x then x else fallback.

(** The template literal appended to [finalPrompt]. *)
Definition studioSettingsBlock (settings : StudioSettings)
    (isRadioEdit hasIntro : bool) (lyricsLanguage : LyricsLanguage) : str :=
  nl ++ lit "=== STUDIO SETTINGS ===" ++ nl ++
  lit "Tone: " ++
    orElse (join (lit ", ") (moodDesc (mood settings) (structure settings)))
           (lit "Balanced") ++ nl ++
  vocalConstraint (vocal settings) ++ nl ++
  structureConstraint (structure settings) ++ nl ++
  lit "Language: " ++ langConstraint lyricsLanguage ++ nl ++
  (if hasIntro then lit "Include [Instrumental Intro]" else []) ++ nl ++
  (if isRadioEdit then lit "Keep under 3 minutes (Radio Edit)" else []) ++ nl ++
  nl ++
  lit "[CRITICAL OUTPUT RULE]" ++ nl ++
  lit "BPM and Musical Key MUST appear inside ## Tags." ++ nl.

(** [finalPrompt] as it is sent: the outcome of the mode logic with the
    settings block appended. *)
Definition composePrompt (prompt : str) (mode : GeneratorMode)
    (settings : StudioSettings) (isRadioEdit hasIntro : bool)
    (lyricsLanguage : LyricsLanguage) : str :=
  fst (modeLogic prompt mode)
  ++ studioSettingsBlock settings isRadioEdit hasIntro lyricsLanguage.

Section Generator.

Context {Temperature Error : Type}.

Definition modelName (mode : GeneratorMode) (generation : Generation Temperature) : str :=
  let modelName :=
    if eqb (modelPreference generation) quality
    then gemini_3_pro_preview else gemini_2_5_flash in
  if GeneratorMode_eqb mode THINKING then gemini_3_pro_preview else modelName.

(** [createSession(model, enableTools)] followed by
    [sendMessage({ message: finalPrompt })]. *)
Definition createSession (mode : GeneratorMode) (generation : Generation Temperature)
    (history : list HistoryEntry) (finalPrompt model : str) (enableTools : bool)
  : Call Temperature :=
  mkCall model (temperature generation)
         (if GeneratorMode_eqb mode THINKING then Some 32768%Z else None)
         enableTools history finalPrompt.

(** [generateContentResponse].  [signalAborted] is [signal?.aborted] as the
    catch handler reads it: [None] when no signal was passed.  The result
    is the list of calls made and what the promise settles to. *)
Definition generateContentResponse
    (prompt : str) (mode : GeneratorMode) (settings : StudioSettings)
    (generation : Generation Temperature) (isRadioEdit hasIntro : bool)
    (lyricsLanguage : LyricsLanguage) (history : list HistoryEntry)
    (service : Service Temperature Error) (signalAborted : option bool)
  : list (Call Temperature) * Outcome Error :=
  let useSearch := snd (modeLogic prompt mode) in
  let finalPrompt := composePrompt prompt mode settings isRadioEdit hasIntro lyricsLanguage in
  let first :=
    createSession mode generation history finalPrompt (modelName mode generation)
                  useSearch in
  match service 0 first with
  | Reply text => ([first], Reply text)
  | Failure err =>
      match signalAborted with
      | Some true => ([first], Failure err)
      | _ =>
          let second :=
            createSession mode generation history finalPrompt gemini_2_5_flash false in
          ([first; second], service 1 second)
      end
  end.

End Generator.

End V8.

(** ** The tag sequence, in the words of the specification

    Split the block on comma and on line break alike, trim every piece and
    drop the empty ones. *)

Definition is_tag_separator (c : char) : bool := ((c =? COMMA) || (c =? LF))%N.

Fixpoint split_where (sep : char -> bool) (s : str) : list str :=
  match s with
  | [] => [[]]
  | c :: s' =>
      if sep c then [] :: split_where sep s'
      else match split_where sep s' with
           | piece :: rest => (c :: piece) :: rest
           | [] => [[c]]
           end
  end.

Definition tagSequence (block : str) : list str :=
  filter truthy (map trim (split_where is_tag_separator block)).

(** ** A reply built from known fields

    The output format that [SYSTEM_INSTRUCTION] prescribes, with the five
    placeholders filled in. *)

Definition formatReply (t v g st ly : str) : str :=
  hdrTitle ++ lit " " ++ t ++ nl ++ nl ++
  hdrVoice ++ nl ++ v ++ nl ++ nl ++
  hdrTags ++ nl ++ g ++ nl ++ nl ++
  hdrStyle ++ nl ++ st ++ nl ++ nl ++
  hdrLyrics ++ nl ++ ly ++ nl.

(** The reply for a song, its tags joined by [sep]. *)
Definition renderSong (sep : str) (song : ParsedSong) : str :=
  formatReply (title song) (voice song) (join sep (tags song))
              (style song) (lyrics song).

Definition headers : list str := [hdrTitle; hdrVoice; hdrTags; hdrStyle; hdrLyrics].

(** A field that contains none of the five section headers. *)
Definition header_free (f : str) : bool :=
  forallb (fun h => negb (includes h f)) headers.

(** A field that is not blank: something is left of it after [trim]. *)
Definition not_blank (f : str) : bool := truthy (trim f).

(** [p] and [x] differ at a position that both have. *)
Fixpoint clash (p x : str) : bool :=
  match p, x with
  | a :: p', c :: x' => if (c =? a)%N then clash p' x' else true
  | _, _ => false
  end.

(** [p] starts nowhere inside [x], whatever comes behind [x]. *)
Fixpoint clear_of (p x : str) : bool :=
  match x with
  | [] => true
  | _ :: x' => clash p x && clear_of p x'
  end.

Definition prepend (x : str) (o : option (str * str)) : option (str * str) :=
  match o with
  | Some (b, a) => Some (x ++ b, a)
  | None => None
  end.

(** The first character of a header is not white space. *)
Definition opens_visibly (n : str) : bool :=
  match n with
  | n0 :: _ => negb (is_space n0)
  | [] => false
  end.

(** A tag as the prompt asks for it: it opens and ends with a character
    that is not white space and holds neither comma nor line break. *)
Definition plain_tag (tag : str) : bool :=
  opens_visibly tag && opens_visibly (rev tag)
  && forallb (fun c => negb (is_tag_separator c)) tag.

(** A text put between two tags: a comma or a line break, then white space
    that holds neither. *)
Definition separates_tags (sep : str) : bool :=
  match sep with
  | d :: pad =>
      is_tag_separator d && forallb is_space pad
      && forallb (fun c => negb (is_tag_separator c)) pad
  | [] => false
  end.

(** ** The parser as a forward scan, in the words of the specification

    Each field is what follows its header up to the next header; the title
    is the rest of its line, the lyrics are the rest of the text. *)

(** The trimmed text between the first [hdr] and the first [next] behind
    it. *)
Definition between (hdr next text : str) : option str :=
  match find hdr text with
  | Some (_, behind) =>
      match find next behind with
      | Some (block, _) => Some (trim block)
      | None => None
      end
  | None => None
  end.

(** The trimmed rest of the first line with something to show behind the
    first [hdr]. *)
Definition lineBehind (hdr text : str) : option str :=
  match find hdr text with
  | Some (_, behind) =>
      match trimStart behind with
      | c :: r => Some (trim (take_while is_dot (c :: r)))
      | [] => None
      end
  | None => None
  end.

(** The trimmed text behind the first [hdr]. *)
Definition restBehind (hdr text : str) : option str :=
  match find hdr text with
  | Some (_, behind) => Some (trim behind)
  | None => None
  end.

Definition scanSong (text : str) : option ParsedSong :=
  match lineBehind hdrTitle text, between hdrStyle hdrLyrics text,
        restBehind hdrLyrics text with
  | Some (t0 :: t), Some (s0 :: st), Some (l0 :: ly) =>
      Some (mkSong (t0 :: t)
                   (match between hdrVoice hdrTags text with
                    | Some v => v
                    | None => notSpecified
                    end)
                   (s0 :: st)
                   (match between hdrTags hdrStyle text with
                    | Some block => tagSequence block
                    | None => []
                    end)
                   (l0 :: ly))
  | _, _, _ => None
  end.

(** ** Sample replies *)

Definition sampleReply : str :=
  lit "## Title: Neon Rain" ++ nl ++ nl ++
  lit "## Voice:" ++ nl ++ lit "Female, airy soprano" ++ nl ++ nl ++
  lit "## Tags:" ++ nl ++ lit "#120 BPM, #A Minor" ++ nl ++ lit "#House" ++ nl ++ nl ++
  lit "## Style:" ++ nl ++ lit "Deep house, analog warmth" ++ nl ++ nl ++
  lit "## Lyrics:" ++ nl ++ lit "[Verse 1]" ++ nl ++ lit "City lights" ++ nl.

(** A reply whose tags stand on one line. *)
Definition oneLineTagsReply : str :=
  lit "## Title: Neon Rain" ++ nl ++
  lit "## Tags: #120 BPM, #A Minor, #House" ++
  lit " ## Style: Deep house" ++ nl ++
  lit "## Lyrics:" ++ nl ++ lit "City lights".

Definition sampleTagsBlock : str :=
  lit "#120 BPM, #A Minor" ++ nl ++ lit "#House".

Definition twoLineTitleSong : ParsedSong :=
  mkSong (lit "Neon" ++ nl ++ lit "Rain") (lit "Female, airy soprano")
         (lit "Deep house") [lit "#120 BPM"; lit "#A Minor"] (lit "City lights").

Definition sampleSong : ParsedSong :=
  mkSong (lit "  Neon Rain ") (lit "Female, airy soprano")
         (lit "Deep house, analog warmth")
         [lit "#120 BPM"; lit "#A Minor"; lit "#House"]
         (lit "[Verse 1]" ++ nl ++ lit "City lights" ++ nl).

(** A song whose tags are single words, one of them without its "#". *)
Definition oneWordTagsSong : ParsedSong :=
  mkSong (lit "Neon Rain") (lit "Female, airy soprano") (lit "Deep house")
         [lit "#House"; lit "Techno"; lit "#A-Minor"] (lit "City lights").

Definition replyWithoutTitle : str :=
  lit "## Voice:" ++ nl ++ lit "Female, airy soprano" ++ nl ++ nl ++
  lit "## Tags:" ++ nl ++ lit "#120 BPM, #A Minor" ++ nl ++ nl ++
  lit "## Style:" ++ nl ++ lit "Deep house, analog warmth" ++ nl ++ nl ++
  lit "## Lyrics:" ++ nl ++ lit "[Verse 1]" ++ nl ++ lit "City lights" ++ nl.

Definition replyWithoutVoice : str :=
  lit "## Title: Neon Rain" ++ nl ++ nl ++
  lit "## Tags:" ++ nl ++ lit "#120 BPM, #A Minor" ++ nl ++ nl ++
  lit "## Style:" ++ nl ++ lit "Deep house, analog warmth" ++ nl ++ nl ++
  lit "## Lyrics:" ++ nl ++ lit "[Verse 1]" ++ nl ++ lit "City lights" ++ nl.

Definition replyWithoutTags : str :=
  lit "## Title: Neon Rain" ++ nl ++ nl ++
  lit "## Voice:" ++ nl ++ lit "Female, airy soprano" ++ nl ++ nl ++
  lit "## Style:" ++ nl ++ lit "Deep house, analog warmth" ++ nl ++ nl ++
  lit "## Lyrics:" ++ nl ++ lit "[Verse 1]" ++ nl ++ lit "City lights" ++ nl.

(** ** The one-shot generators of the current revision *)

(** What a promise settles to. *)
Inductive Settled (A Error : Type) : Type :=
| Resolved (value : A)
| Rejected (err : Error).
Arguments Resolved {A Error}.
Arguments Rejected {A Error}.

(** The argument of [ai.models.generateContent]. *)
Record ContentRequest : Type := mkContentRequest {
  requestModel : str;
  requestContents : str
}.

(** [ai.models.generateContent], seen from the caller. *)
Definition ContentService (Error : Type) : Type := ContentRequest -> Outcome Error.

Definition DQUOTE : str := [34%N].

(** The template literal of [generateVideoPrompt]. *)
Definition videoPromptText (songTitle lyrics style : str) : str :=
  nl ++ lit "Create a cinematic AI video prompt (Runway Gen-3 / Pika)." ++ nl ++
  nl ++
  lit "Song: " ++ DQUOTE ++ songTitle ++ DQUOTE ++ nl ++
  lit "Style: " ++ DQUOTE ++ style ++ DQUOTE ++ nl ++
  lit "Lyrics snippet: " ++ DQUOTE ++ firstn 100 lyrics ++ lit "..." ++ DQUOTE ++ nl ++
  nl ++
  lit "Format:" ++ nl ++
  DQUOTE ++ lit "Cinematic shot of [subject], [action], [lighting], [camera movement], [mood]."
    ++ DQUOTE ++ nl ++
  nl ++
  lit "Max 40 words." ++ nl.

(** [generateVideoPrompt]: [result.text?.trim() || null], and [null] from
    the catch handler. *)
Definition generateVideoPrompt {Error : Type} (songTitle lyrics style : str)
    (service : ContentService Error) : Settled (option str) Error :=
  match service (mkContentRequest gemini_2_5_flash (videoPromptText songTitle lyrics style)) with
  | Reply text =>
      Resolved match text with
               | Some t => if truthy (trim t) then Some (trim t) else None
               | None => None
               end
  | Failure err => Resolved None
  end.

(** The template literal of [enhanceStyle]. *)
Definition enhanceStyleText (draft : str) : str :=
  nl ++ lit "Refine this into a Suno v4.5 Style Prompt." ++ nl ++
  nl ++
  lit "Input: " ++ DQUOTE ++ draft ++ DQUOTE ++ nl ++
  nl ++
  lit "Output ONLY:" ++ nl ++
  lit "Genre, Instruments, Vibe, BPM, Key" ++ nl ++
  lit "(No labels, no explanations)" ++ nl.

(** [enhanceStyle]: [result.text?.trim() ?? null], and the error thrown
    again from the catch handler. *)
Definition enhanceStyle {Error : Type} (draft : str)
    (service : ContentService Error) : Settled (option str) Error :=
  match service (mkContentRequest gemini_2_5_flash (enhanceStyleText draft)) with
  | Reply text => Resolved (option_map trim text)
  | Failure err => Rejected err
  end.

(** The middle band of a mood value, in which the mood translation says
    nothing. *)
Definition in_band (x : Z) : Prop := (30 <= x <= 70)%Z.

(** ** Sample requests and services *)

Definition sampleSettings : StudioSettings :=
  mkStudio (mkMood 50 50 50) (mkVocal Any Any) Auto.

Definition sampleGeneration : Generation Z := mkGeneration (lit "speed") 1%Z.

(** A service whose first call fails and whose second call answers. *)
Definition flakyService : Service Z str :=
  fun n _ =>
    match n with
    | O => Failure (lit "503")
    | _ => Reply (Some (lit "ok"))
    end.

(** A service that is down. *)
Definition downService : Service Z str := fun _ _ => Failure (lit "503").

(** ** The chat session of [App.tsx]

    The handlers run on the single thread of the browser: a handler runs
    from its start to its next [await], or from an [await] to its end,
    without interleaving.  The session is a state machine whose events are
    those uninterrupted runs: the part of [handleSend] in front of the
    [await], the part behind it (once per request, when
    [generateContentResponse] settles), and [handleClear].

    The state holds the messages, from which the effect derives the
    history handed to the model, the ref to the current controller, the
    [AbortController] objects created so far (an object is named by its
    index, its content is its [aborted] flag), the requests in flight, the
    loading flag and the toast.  The input box, the sounds, the panels and
    the timers that hide the toast are left out. *)
Module App.

Import stdpp.base stdpp.list stdpp.gmap.

(** Modelled from the spec: [Message], declared in [types.ts], is a record
    of an id, a role (user or model) and a content. *)
Inductive Role : Type := user | model.

Inductive MessageId : Type :=
| IdInit
| IdWelcome
| IdTime (ms : N).

Record Message : Type := mkMessage {
  id : MessageId;
  role : Role;
  content : str
}.

(** What [generateContentResponse] throws: [name] and [message] of the
    error. *)
Record JsError : Type := mkError {
  errName : str;
  errMessage : str
}.

(** [Error.prototype.toString]. *)
Definition errToString (err : JsError) : str :=
  if negb (truthy (errName err)) then errMessage err
  else if negb (truthy (errMessage err)) then errName err
  else errName err ++ lit ": " ++ errMessage err.

Record State : Type := mkState {
  messages : list Message;
  abortControllerRef : option nat;
  controllers : list bool;
  inFlight : gmap nat N;
  isLoading : bool;
  errorToast : option str
}.

Inductive Event : Type :=
| Send (now : N) (text : str) (mode : GeneratorMode)
| Settle (controller : nat) (outcome : Outcome JsError)
| Clear.

(** The entry the effect writes to [historyRef] for a message. *)
Definition historyOf (messages : list Message) : list (Role * str) :=
  map (fun m => (role m, content m)) messages.

Definition initial : State :=
  mkState [mkMessage IdInit model (lit "Studio initialized. Ready for production.")]
          None [] ∅ false None.

(** [toLowerCase] on the letters A to Z.  No other character lowers to one
    of the letters of the word the result is compared with. *)
Definition toLowerCase (s : str) : str :=
  map (fun c => if ((65 <=? c) && (c <=? 90))%N then (c + 32)%N else c) s.

Definition displayContent (text : str) (mode : GeneratorMode) : str :=
  match mode with
  | RANDOM => [55356; 57266]%N ++ lit " Generating Random Hit..."
  | TRENDING => [55357; 56613]%N ++ lit " Analyzing Trends & Generating..."
  | CRAZY => [9889]%N ++ lit " Going Crazy Mode..."
  | KPOP_RANDOM => [10024]%N ++ lit " Generating K-Pop Hit..."
  | KPOP_3_VOICES => [55357; 56421]%N ++ lit " Generating Trio Track..."
  | THINKING =>
      [55358; 56800]%N ++ lit " [Deep Think] " ++
      (if truthy text then text else lit "Complex Masterpiece")
  | NORMAL => text
  end.

(** [controller.abort()] *)
Definition abort (c : nat) (controllers : list bool) : list bool :=
  <[c := true]> controllers.

(** [controller.signal.aborted] *)
Definition aborted (c : nat) (controllers : list bool) : bool :=
  match controllers !! c with
  | Some flag => flag
  | None => false
  end.

(** [if (abortControllerRef.current) abortControllerRef.current.abort()],
    the opening of [handleSend] and of [handleClear]: the controllers
    behind it. *)
Definition supersede (s : State) : list bool :=
  match abortControllerRef s with
  | Some current => abort current (controllers s)
  | None => controllers s
  end.

(** [handleSend], up to the [await]. *)
Definition handleSend (now : N) (text : str) (mode : GeneratorMode) (s : State) : State :=
  if GeneratorMode_eqb mode NORMAL && Js.eqb (toLowerCase (trim text)) (lit "dain") then
    mkState (messages s) (abortControllerRef s) (controllers s) (inFlight s)
            (isLoading s)
            (Some (lit "Developer Mode Activated " ++ [55357; 57056; 65039]%N))
  else if negb (truthy (trim text)) && GeneratorMode_eqb mode NORMAL then s
  else
    let controllers := supersede s in
    let controller := length controllers in
    let controllers := controllers ++ [false] in
    let userMsg := mkMessage (IdTime now) user (displayContent text mode) in
    let assistantId := (now + 1)%N in
    mkState (messages s ++ [userMsg]) (Some controller) controllers
            (<[controller := assistantId]> (inFlight s)) true None.

Definition isKeyError (err : JsError) : bool :=
  includes (lit "API key") (errMessage err) || includes (lit "403") (errMessage err)
  || includes (lit "API_KEY") (errToString err).

(** The [finally] block. *)
Definition finish (controller : nat) (s : State) : State :=
  if decide (abortControllerRef s = Some controller) then
    mkState (messages s) None (controllers s) (inFlight s) false (errorToast s)
  else s.

(** [handleSend], behind the [await], for the request that [controller]
    belongs to. *)
Definition resume (assistantId : N) (controller : nat) (outcome : Outcome JsError)
    (s : State) : State :=
  let s :=
    match outcome with
    | Reply responseText =>
        if aborted controller (controllers s) then s
        else
          match responseText with
          | Some (c0 :: rest) =>
              mkState (messages s ++ [mkMessage (IdTime assistantId) model (c0 :: rest)])
                      (abortControllerRef s) (controllers s) (inFlight s)
                      (isLoading s) (errorToast s)
          | _ => s
          end
    | Failure err =>
        if Js.eqb (errName err) (lit "AbortError") || aborted controller (controllers s) then s
        else
          mkState (messages s) (abortControllerRef s) (controllers s) (inFlight s)
                  (isLoading s)
                  (Some (if isKeyError err
                         then lit "Failed: API Key missing. Check Vercel Env Vars."
                         else lit "Generation failed. Please try again."))
    end in
  finish controller s.

(** [handleClear]. *)
Definition handleClear (s : State) : State :=
  let controllers := supersede s in
  mkState [mkMessage IdWelcome model (lit "Session cleared. Ready for a new track.")]
          None controllers (inFlight s) false None.

(** One event.  A request settles once, so settling one that is not in
    flight is no event at all. *)
Definition step (e : Event) (s : State) : State :=
  match e with
  | Send now text mode => handleSend now text mode s
  | Settle controller outcome =>
      match inFlight s !! controller with
      | Some assistantId =>
          let s := resume assistantId controller outcome s in
          mkState (messages s) (abortControllerRef s) (controllers s)
                  (delete controller (inFlight s)) (isLoading s) (errorToast s)
      | None => s
      end
  | Clear => handleClear s
  end.

Fixpoint run (events : list Event) (s : State) : State :=
  match events with
  | [] => s
  | e :: rest => run rest (step e s)
  end.

(** What holds of every state the session reaches: the requests in flight
    and the current controller are among the controllers created, and a
    request in flight that is not the current one has been aborted. *)
Record Consistent (s : State) : Prop := mkConsistent {
  flight_created : forall c a, inFlight s !! c = Some a -> c < length (controllers s);
  current_created : forall c, abortControllerRef s = Some c -> c < length (controllers s);
  superseded_aborted :
    forall c a, inFlight s !! c = Some a -> abortControllerRef s <> Some c ->
                aborted c (controllers s) = true
}.

Definition sampleError : JsError := mkError (lit "Error") (lit "503 Service Unavailable").

(** One request, which fails. *)
Definition failedExchange : list Event :=
  [Send 1000 (lit "lofi rain") NORMAL; Settle 0 (Failure sampleError)].

(** Request A, then request B while A is in flight, then A's reply, then
    B's reply. *)
Definition overtakenExchange : list Event :=
  [Send 1000 (lit "lofi rain") NORMAL; Send 2000 (lit "surf rock") NORMAL;
   Settle 0 (Reply (Some (lit "reply to A"))); Settle 1 (Reply (Some (lit "reply to B")))].

End App.

(** ** Replacing with a regular expression *)

(** The text behind a match anchored at the head of [s]: the matcher is
    run with a continuation that hands back what is left. *)
Definition match_end (r : regex) (s : str) : option str :=
  match run r s None (fun s' _ => Some (Some s')) with
  | Some (Some rest) => Some rest
  | _ => None
  end.

(** [s.replace(r, '')] for a pattern with the [g] flag: scanning from the
    left, the characters of a match are dropped and the scan resumes behind
    them.  [skip] counts the characters of the current match still to
    drop.  An empty match drops nothing. *)
Fixpoint remove_all_from (r : regex) (skip : nat) (s : str) : str :=
  match s with
  | [] => []
  | c :: s' =>
      match skip with
      | S k => remove_all_from r k s'
      | O =>
          match match_end r s with
          | Some rest =>
              match length s - length rest with
              | S k => remove_all_from r k s'
              | O => c :: remove_all_from r 0 s'
              end
          | None => c :: remove_all_from r 0 s'
          end
      end
  end.

Definition remove_all (r : regex) (s : str) : str := remove_all_from r 0 s.

(** The text in front of the leftmost match and the text behind it. *)
Fixpoint search (r : regex) (s : str) : option (str * str) :=
  match match_end r s with
  | Some rest => Some ([], rest)
  | None =>
      match s with
      | [] => None
      | c :: s' =>
          match search r s' with
          | Some (b, a) => Some (c :: b, a)
          | None => None
          end
      end
  end.

(** [s.replace(r, '')] for a pattern without flags: the leftmost match
    only. *)
Definition remove_first_match (r : regex) (s : str) : str :=
  match search r s with
  | Some (b, a) => b ++ a
  | None => s
  end.

(** ** The message list and the song card

    [components/MessageList.tsx], which parses every model message with
    the current parser. *)
Module MessageList.

Definition HASH : char := 35%N.
Definition UNDERSCORE : char := 95%N.
Definition SPACE : char := 32%N.

(** [text.replace('#', '')] in [TagPill]: a string pattern, so the first
    occurrence only. *)
Fixpoint tagPill (text : str) : str :=
  match text with
  | [] => []
  | c :: rest => if (c =? HASH)%N then rest else c :: tagPill rest
  end.

(** [t.startsWith('#') ? t : `#${t}`] *)
Definition hashTag (t : str) : str :=
  match t with
  | c :: _ => if (c =? HASH)%N then t else HASH :: t
  | [] => [HASH]
  end.

Definition tagsString (song : ParsedSong) : str :=
  join (lit " ") (map hashTag (tags song)).

Definition fullStylePrompt (song : ParsedSong) : str :=
  style song ++ lit ", " ++ voice song ++ nl ++ tagsString song.

(** The text of the downloaded file. *)
Definition downloadText (song : ParsedSong) : str :=
  lit "Title: " ++ title song ++ nl ++
  lit "Voice: " ++ voice song ++ nl ++
  lit "Tags: " ++ join (lit ", ") (tags song) ++ nl ++
  nl ++
  lit "Style Prompt:" ++ nl ++ fullStylePrompt song ++ nl ++
  nl ++
  lit "Lyrics:" ++ nl ++ lyrics song ++ nl.

(** What [[a-z0-9]] matches under the [i] flag and without the [u] flag:
    the ASCII letters of both cases and the digits. *)
Definition is_alnum (c : char) : bool :=
  (((48 <=? c) && (c <=? 57)) || ((65 <=? c) && (c <=? 90))
   || ((97 <=? c) && (c <=? 122)))%N.

(** [song.title.replace(/[^a-z0-9]/gi, '_').toLowerCase()]; what is
    lowered holds ASCII letters, digits and underscores only. *)
Definition fileStem (title : str) : str :=
  App.toLowerCase (map (fun c => if is_alnum c then c else UNDERSCORE) title).

Definition fileName (song : ParsedSong) : str := fileStem (title song) ++ lit ".txt".

(** [song.tags.slice(0, 5)], each in a [TagPill]. *)
Definition pills (song : ParsedSong) : list str := map tagPill (firstn 5 (tags song)).

(** [/\[CONSTRAINT:.*?\]/g] *)
Definition reConstraint : regex :=
  Seq (Chars (lit "[CONSTRAINT:")) (Seq (Star false is_dot) (Chars (lit "]"))).

Definition settingsHeader : str := Eval cbv in nl ++ lit "=== STUDIO SETTINGS ===".

(** The pattern for the settings block: the header line and, greedily,
    everything behind it. *)
Definition reSettings : regex := Seq (Chars settingsHeader) (Star true is_any).

(** What is shown of a user message. *)
Definition stripUser (content : str) : str :=
  remove_first_match reSettings (remove_all reConstraint content).

(** [msg.content.split('## Title:')[0].trim()]: what is shown of a model
    message as text. *)
Definition beforeTitle (content : str) : str :=
  trim match find hdrTitle content with
       | Some (b, _) => b
       | None => content
       end.

(** What a message renders to: a text bubble, a song card, both or
    neither. *)
Record Rendered : Type := mkRendered {
  bubble : option str;
  card : option ParsedSong
}.

Definition isSome {A : Type} (o : option A) : bool :=
  match o with Some _ => true | None => false end.

(** The body of [messages.map]: [None] where it returns [null]. *)
Definition renderMessage (msg : App.Message) : option Rendered :=
  let isUser := match App.role msg with App.user => true | App.model => false end in
  let song := if isUser then None else V8.parseSongFromText (App.content msg) in
  if negb isUser && negb (truthy (App.content msg)) && negb (isSome song) then None
  else
    let displayContent :=
      if isUser then stripUser (App.content msg) else beforeTitle (App.content msg) in
    if negb isUser && negb (isSome song) && negb (truthy displayContent) then None
    else
      Some (mkRendered
              (if isUser || (negb (isSome song) && truthy displayContent)
               then Some displayContent else None)
              (if negb isUser then song else None)).

End MessageList.

(** ** Remixing and enhancing in [App.tsx] *)

Inductive RemixType : Type := RemixLyrics | RemixStyle | RemixHard.

(** The prompt [handleRemix] builds. *)
Definition remixPrompt (song : ParsedSong) (type : RemixType) : str :=
  match type with
  | RemixLyrics =>
      lit "REMIX LYRICS for " ++ DQUOTE ++ title song ++ DQUOTE ++ lit " (" ++
      style song ++ lit "). Keep structure, new words."
  | RemixStyle =>
      lit "REMIX STYLE for " ++ DQUOTE ++ title song ++ DQUOTE ++
      lit ". Keep lyrics. New Genre/Vibe."
  | RemixHard =>
      lit "HARD REMIX " ++ DQUOTE ++ title song ++ DQUOTE ++ lit ". Total transformation."
  end.

(** [handleRemix]: [handleSend(prompt)], the mode left at its default. *)
Definition handleRemix (now : N) (song : ParsedSong) (type : RemixType)
    (s : App.State) : App.State :=
  App.handleSend now (remixPrompt song type) NORMAL s.

(** The part of the state [handleEnhance] works on. *)
Record Composer : Type := mkComposer {
  input : str;
  isEnhancing : bool;
  composerToast : option str
}.

(** [handleEnhance], up to the [await]: the draft handed to [enhanceStyle],
    if any. *)
Definition enhanceStart (c : Composer) : Composer * option str :=
  if negb (truthy (trim (input c))) then (c, None)
  else (mkComposer (input c) true (composerToast c), Some (input c)).

(** [handleEnhance], behind the [await]. *)
Definition enhanceSettle (result : Settled (option str) App.JsError) (c : Composer)
  : Composer :=
  match result with
  | Resolved (Some (e0 :: e)) => mkComposer (e0 :: e) false (composerToast c)
  | Resolved _ => mkComposer (input c) false (composerToast c)
  | Rejected err =>
      mkComposer (input c) false
                 (Some (if App.isKeyError err
                        then lit "Missing API Key. Check Env Vars."
                        else lit "Enhancement failed. Try again."))
  end.

(** [handleEnhance] from start to end.  While [enhanceStyle] is awaited
    the other handlers run: the user types, [handleSend] empties the input
    and sets or clears the toast.  [during] is what they do to the
    composer between the start and the moment the service settles; the
    draft is the input read at the start. *)
Definition handleEnhance (service : ContentService App.JsError)
    (during : Composer -> Composer) (c : Composer) : Composer :=
  match enhanceStart c with
  | (c', Some draft) => enhanceSettle (enhanceStyle draft service) (during c')
  | (c', None) => c'
  end.

(** Two things that happen during the [await]: the user types on, and a
    [handleSend] that starts a request ([setInput('')],
    [setErrorToast(null)]). *)
Definition typing (c : Composer) : Composer :=
  mkComposer (input c ++ lit " at night") (isEnhancing c) (composerToast c).

Definition sending (c : Composer) : Composer :=
  mkComposer [] (isEnhancing c) None.

(** ** More of what holds of every state of the session *)
Module Session.

Import stdpp.base stdpp.list stdpp.gmap.
Import App.

(** The loading flag is up exactly while there is a current controller,
    and the request of the current controller is in flight and not
    aborted. *)
Record Current (s : State) : Prop := mkCurrent {
  loading_current : isLoading s = true <-> abortControllerRef s <> None;
  current_in_flight :
    forall c, abortControllerRef s = Some c ->
              is_Some (inFlight s !! c) /\ aborted c (controllers s) = false
}.

(** No current controller, and every request in flight aborted: the state
    behind [handleClear]. *)
Definition Quiet (s : State) : Prop :=
  abortControllerRef s = None /\
  forall c a, inFlight s !! c = Some a -> aborted c (controllers s) = true.

Definition isSettle (e : Event) : bool :=
  match e with Settle _ _ => true | _ => false end.

Definition welcome : Message :=
  mkMessage IdWelcome model (lit "Session cleared. Ready for a new track.").

(** Whether [handleSend] goes past its two early returns. *)
Definition starts (text : str) (mode : GeneratorMode) : bool :=
  negb (GeneratorMode_eqb mode NORMAL && Js.eqb (toLowerCase (trim text)) (lit "dain"))
  && negb (negb (truthy (trim text)) && GeneratorMode_eqb mode NORMAL).

(** The state behind a [handleSend] that starts a request. *)
Definition started (now : N) (text : str) (mode : GeneratorMode) (s : State) : State :=
  mkState (messages s ++ [mkMessage (IdTime now) user (displayContent text mode)])
          (Some (length (controllers s))) (supersede s ++ [false])
          (<[length (controllers s) := (now + 1)%N]> (inFlight s)) true None.

(** A state with [c] no longer in flight and nothing else changed. *)
Definition landed (c : nat) (s : State) : State :=
  mkState (messages s) (abortControllerRef s) (controllers s)
          (delete c (inFlight s)) (isLoading s) (errorToast s).

End Session.

(** Sample services for the one-shot generators. *)
Definition blankContentService : ContentService App.JsError :=
  fun _ => Reply (Some (lit "   ")).

Definition styleContentService : ContentService App.JsError :=
  fun _ => Reply (Some (lit " Deep house, 124 BPM, A Minor " ++ nl)).

Definition downContentService : ContentService App.JsError :=
  fun _ => Failure App.sampleError.

(** * Properties *)

(** ** Strings *)

Section StringFacts.

Lemma find_unfold p s :
  find p s =
  match strip_prefix p s with
  | Some rest => Some ([], rest)
  | None =>
      match s with
      | [] => None
      | c :: s' =>
          match find p s' with
          | Some (b, a) => Some (c :: b, a)
          | None => None
          end
      end
  end.
Proof. destruct s; reflexivity. Qed.

Lemma includes_unfold p s :
  includes p s =
  match strip_prefix p s with
  | Some _ => true
  | None => match s with [] => false | _ :: s' => includes p s' end
  end.
Proof. destruct s; reflexivity. Qed.

Lemma strip_prefix_spec p s rest :
  strip_prefix p s = Some rest <-> s = p ++ rest.
Proof.
  revert s; induction p as [|a p IH]; intros s; simpl.
  - split; [intros [= ->] | intros ->]; reflexivity.
  - destruct s as [|c s]; [split; discriminate|].
    destruct (N.eqb_spec c a) as [->|Hne].
    + rewrite IH. split; [intros ->; reflexivity | intros [= ->]; reflexivity].
    + split; [discriminate | intros [= -> _]; contradiction].
Qed.

Lemma strip_prefix_app p rest : strip_prefix p (p ++ rest) = Some rest.
Proof. apply strip_prefix_spec. reflexivity. Qed.

Lemma find_spec p s b a : find p s = Some (b, a) -> s = b ++ p ++ a.
Proof.
  revert b; induction s as [|c s IH]; intros b; rewrite find_unfold.
  - destruct (strip_prefix p []) eqn:E; [|discriminate].
    intros [= <- <-]. apply strip_prefix_spec in E. exact E.
  - destruct (strip_prefix p (c :: s)) eqn:E.
    + intros [= <- <-]. apply strip_prefix_spec in E. exact E.
    + destruct (find p s) as [[b' a']|] eqn:F; [|discriminate].
      intros [= <- <-]. simpl. f_equal. apply IH. reflexivity.
Qed.

Lemma includes_find p s : includes p s = false <-> find p s = None.
Proof.
  induction s as [|c s IH]; rewrite includes_unfold, find_unfold.
  - destruct (strip_prefix p []); split; (discriminate || reflexivity).
  - destruct (strip_prefix p (c :: s)); [split; discriminate|].
    rewrite IH. destruct (find p s) as [[b a]|]; split; (discriminate || reflexivity).
Qed.

(** No occurrence in the whole text, none behind any prefix of it. *)
Lemma find_none_suffix p x s : find p (x ++ s) = None -> find p s = None.
Proof.
  induction x as [|c x IH]; simpl app; [trivial|].
  rewrite find_unfold. destruct (strip_prefix p (c :: x ++ s)); [discriminate|].
  destruct (find p (x ++ s)) as [[b a]|]; [discriminate|]. intros _. apply IH. reflexivity.
Qed.

Lemma firstn_behind (pre t : str) :
  firstn (length (pre ++ t) - length t) (pre ++ t) = pre.
Proof.
  replace (length (pre ++ t) - length t) with (length pre + 0)
    by (rewrite length_app; lia).
  rewrite firstn_app_2. simpl. apply app_nil_r.
Qed.

Lemma skip_while_idem p s : skip_while p (skip_while p s) = skip_while p s.
Proof.
  induction s as [|c s IH]; simpl; [reflexivity|].
  destruct (p c) eqn:E; [exact IH|]. simpl. rewrite E. reflexivity.
Qed.

Lemma trim_trimStart s : trim (trimStart s) = trim s.
Proof. unfold trim, trimStart. rewrite skip_while_idem. reflexivity. Qed.

Lemma skip_while_length p s : length (skip_while p s) <= length s.
Proof.
  induction s as [|c s IH]; simpl; [lia|]. destruct (p c); simpl; lia.
Qed.

Lemma firstn_take_while p s :
  firstn (length s - length (skip_while p s)) s = take_while p s.
Proof.
  induction s as [|c s IH]; [reflexivity|]. cbn [skip_while take_while].
  destruct (p c).
  - pose proof (skip_while_length p s).
    replace (length (c :: s) - length (skip_while p s))
      with (S (length s - length (skip_while p s))) by (simpl; lia).
    simpl. rewrite IH. reflexivity.
  - rewrite Nat.sub_diag. reflexivity.
Qed.

Lemma skip_while_head p s c r : skip_while p s = c :: r -> p c = false.
Proof.
  induction s as [|d s IH]; simpl; [discriminate|].
  destruct (p d) eqn:E; [exact IH|]. intros [= <- _]. exact E.
Qed.

Lemma is_space_is_dot c : is_space c = false -> is_dot c = true.
Proof.
  unfold is_space, is_dot. intros H. apply orb_false_iff in H as [_ ->]. reflexivity.
Qed.

End StringFacts.

(** ** The regular expressions of the parser, as forward scans *)

Section RegexFacts.

Lemma star_greedy_total p s (f : str -> capture) :
  star_greedy p s (fun s' => Some (f s')) = Some (f (skip_while p s)).
Proof.
  induction s as [|c s IH]; simpl; [reflexivity|].
  destruct (p c); [rewrite IH|]; reflexivity.
Qed.

(** The greedy star stops at the end of the longest run when the rest of
    the pattern matches there. *)
Lemma star_greedy_first p s k r :
  k (skip_while p s) = Some r -> star_greedy p s k = Some r.
Proof.
  induction s as [|c s IH]; simpl; [trivial|].
  destruct (p c); [|trivial]. intros H. rewrite (IH H). reflexivity.
Qed.

Lemma star_greedy_ext p s k1 k2 :
  (forall t, k1 t = k2 t) -> star_greedy p s k1 = star_greedy p s k2.
Proof.
  intros H. induction s as [|c s IH]; simpl; [apply H|].
  rewrite IH, H. reflexivity.
Qed.

Lemma star_lazy_ext p s k1 k2 :
  (forall t, k1 t = k2 t) -> star_lazy p s k1 = star_lazy p s k2.
Proof.
  intros H. induction s as [|c s IH]; simpl; rewrite H; [reflexivity|].
  rewrite IH. reflexivity.
Qed.

(** The lazy star in front of a lookahead stops at the first occurrence of
    the text looked for. *)
Lemma star_lazy_ahead n pre t :
  star_lazy is_any t
    (fun s3 =>
       match strip_prefix n s3 with
       | Some _ => Some (Some (firstn (length (pre ++ t) - length s3) (pre ++ t)))
       | None => None
       end)
  = match find n t with
    | Some (b, _) => Some (Some (pre ++ b))
    | None => None
    end.
Proof.
  revert pre; induction t as [|c t IH]; intros pre.
  - simpl star_lazy. rewrite find_unfold.
    destruct (strip_prefix n []); [|reflexivity].
    rewrite firstn_behind, app_nil_r. reflexivity.
  - simpl star_lazy. rewrite find_unfold.
    destruct (strip_prefix n (c :: t)) eqn:E.
    + change (S (length t)) with (length (c :: t)).
      rewrite firstn_behind, app_nil_r. reflexivity.
    + specialize (IH (pre ++ [c])). rewrite <- app_assoc in IH. simpl app in IH.
      rewrite IH. destruct (find n t) as [[b a]|]; [|reflexivity].
      rewrite <- app_assoc. reflexivity.
Qed.

(** Leading white space in front of a block never hides its end marker,
    since a marker starts with a character that is not white space. *)
Lemma star_greedy_space_find n0 n s1 :
  is_space n0 = false ->
  star_greedy is_space s1
    (fun s2 =>
       match find (n0 :: n) s2 with
       | Some (b, _) => Some (Some b)
       | None => None
       end)
  = match find (n0 :: n) s1 with
    | Some (b, _) => Some (Some (trimStart b))
    | None => None
    end.
Proof.
  intros Hn0. induction s1 as [|c s1 IH]; cbn [star_greedy].
  - destruct (find (n0 :: n) []) as [[b a]|] eqn:F; [|reflexivity].
    apply find_spec in F. destruct b; discriminate.
  - destruct (is_space c) eqn:Hc.
    + rewrite IH. rewrite (find_unfold (n0 :: n) (c :: s1)).
      cbn [strip_prefix]. destruct (N.eqb_spec c n0) as [->|_]; [congruence|].
      destruct (find (n0 :: n) s1) as [[b a]|]; [|reflexivity].
      unfold trimStart. cbn [skip_while]. rewrite Hc. reflexivity.
    + destruct (find (n0 :: n) (c :: s1)) as [[b a]|] eqn:F; [|reflexivity].
      apply find_spec in F. destruct b as [|b0 b]; [reflexivity|].
      injection F as <- _. unfold trimStart. cbn [skip_while]. rewrite Hc. reflexivity.
Qed.

Lemma match_here_block h n0 n s :
  is_space n0 = false ->
  match_here (reBlock h (n0 :: n)) s =
  match strip_prefix h s with
  | Some s1 =>
      match find (n0 :: n) s1 with
      | Some (b, _) => Some (Some (trimStart b))
      | None => None
      end
  | None => None
  end.
Proof.
  intros Hn0. unfold match_here, reBlock. cbn [run].
  destruct (strip_prefix h s) as [s1|]; [|reflexivity].
  rewrite <- (star_greedy_space_find n0 n s1 Hn0).
  apply star_greedy_ext. intros s2.
  pose proof (star_lazy_ahead (n0 :: n) [] s2) as L. cbn [app] in L.
  etransitivity; [|exact L].
  apply star_lazy_ext. intros s3.
  destruct (strip_prefix (n0 :: n) s3); reflexivity.
Qed.

(** A block pattern extracts what lies between the first occurrence of its
    header and the first occurrence of the next header behind it, less the
    leading white space. *)
Lemma exec_block h0 h n0 n s :
  is_space n0 = false ->
  exec (reBlock (h0 :: h) (n0 :: n)) s =
  match find (h0 :: h) s with
  | Some (_, s1) =>
      match find (n0 :: n) s1 with
      | Some (b, _) => Some (Some (trimStart b))
      | None => None
      end
  | None => None
  end.
Proof.
  intros Hn0. induction s as [|c s IH].
  - reflexivity.
  - cbn [exec]. rewrite match_here_block by assumption.
    rewrite (find_unfold (h0 :: h) (c :: s)).
    destruct (strip_prefix (h0 :: h) (c :: s)) as [s1|] eqn:E.
    + destruct (find (n0 :: n) s1) as [[b a]|] eqn:F; [reflexivity|].
      rewrite IH. destruct (find (h0 :: h) s) as [[b' s1']|] eqn:G; [|reflexivity].
      apply strip_prefix_spec in E. apply find_spec in G.
      injection E as -> E. rewrite E in G.
      assert (exists x, s1 = x ++ s1') as [x ->].
      { rewrite app_assoc in G.
        apply app_eq_app in G. destruct G as [l [[Hh _]|[_ ->]]].
        - exfalso. apply (f_equal (@length _)) in Hh.
          rewrite !length_app in Hh. simpl in Hh. lia.
        - exists l. reflexivity. }
      rewrite (find_none_suffix _ _ _ F). reflexivity.
    + rewrite IH. destruct (find (h0 :: h) s) as [[b' s1']|]; reflexivity.
Qed.

(** A pattern that opens with literal text is tried at the occurrences of
    that text, leftmost first. *)
Lemma exec_header h0 h r s :
  exec (Seq (Chars (h0 :: h)) r) s =
  match find (h0 :: h) s with
  | Some (_, a) =>
      match match_here (Seq (Chars (h0 :: h)) r) ((h0 :: h) ++ a) with
      | Some c => Some c
      | None => exec (Seq (Chars (h0 :: h)) r) (h ++ a)
      end
  | None => None
  end.
Proof.
  induction s as [|c s IH]; [reflexivity|].
  rewrite (find_unfold (h0 :: h) (c :: s)).
  destruct (strip_prefix (h0 :: h) (c :: s)) as [a|] eqn:E.
  - apply strip_prefix_spec in E. rewrite <- E. cbn [exec].
    injection E as _ ->. reflexivity.
  - cbn [exec]. unfold match_here at 1. cbn [run]. rewrite E, IH.
    destruct (find (h0 :: h) s) as [[b a]|]; reflexivity.
Qed.

Lemma exec_header_none h0 h r s :
  includes (h0 :: h) s = false -> exec (Seq (Chars (h0 :: h)) r) s = None.
Proof.
  intros H. apply includes_find in H. rewrite exec_header, H. reflexivity.
Qed.

(** The lyrics are everything behind the first lyrics header. *)
Lemma exec_lyrics s :
  exec reLyrics s =
  match find hdrLyrics s with
  | Some (_, a) => Some (Some (trimStart a))
  | None => None
  end.
Proof.
  unfold reLyrics, hdrLyrics. rewrite exec_header.
  match goal with |- context [find ?h s] => destruct (find h s) as [[b a]|] end;
    [|reflexivity].
  unfold match_here. cbn [run]. rewrite strip_prefix_app.
  erewrite star_greedy_first; [reflexivity|].
  cbv beta. rewrite star_greedy_total.
  assert (skip_while is_any (skip_while is_space a) = []) as ->.
  { generalize (skip_while is_space a). intros l. induction l; [reflexivity|exact IHl]. }
  cbn [length]. rewrite Nat.sub_0_r, firstn_all. reflexivity.
Qed.

(** The title is the rest of the line behind the first title header, when
    something other than white space follows that header. *)
Lemma exec_title s b a c r :
  find hdrTitle s = Some (b, a) ->
  trimStart a = c :: r ->
  exec reTitle s = Some (Some (take_while is_dot (c :: r))).
Proof.
  intros F T. unfold reTitle, hdrTitle in *. rewrite exec_header, F.
  unfold match_here. cbn [run]. rewrite strip_prefix_app.
  erewrite star_greedy_first; [reflexivity|].
  fold (trimStart a). rewrite T.
  pose proof (skip_while_head _ _ _ _ T) as Hc. rewrite (is_space_is_dot _ Hc).
  rewrite star_greedy_total. do 2 f_equal.
  cbn [take_while]. rewrite (is_space_is_dot _ Hc).
  pose proof (skip_while_length is_dot r).
  replace (length (c :: r) - length (skip_while is_dot r))
    with (S (length r - length (skip_while is_dot r))) by (simpl; lia).
  cbn [firstn]. rewrite firstn_take_while. reflexivity.
Qed.

End RegexFacts.

(** ** The parser: the validation gate *)

Section ParserFacts.

Lemma missing_false x : missing x = false -> exists c r, x = Some (c :: r).
Proof. destruct x as [[|c r]|]; try discriminate. intros _. eauto. Qed.

(** The gate of [parseSongFromText], in both revisions. *)
Lemma V8_parse_gate text :
  V8.parseSongFromText text =
  match titleOf text, styleOf text, lyricsOf text with
  | Some (t0 :: t), Some (s0 :: st), Some (l0 :: ly) =>
      Some (mkSong (t0 :: t) (voiceOf text) (s0 :: st)
                   (V8.tagsOf (rawTagsOf text)) (l0 :: ly))
  | _, _, _ => None
  end.
Proof.
  unfold V8.parseSongFromText.
  destruct (titleOf text) as [[|t0 t]|], (styleOf text) as [[|s0 st]|],
    (lyricsOf text) as [[|l0 ly]|]; reflexivity.
Qed.

Lemma V7_parse_gate text :
  V7.parseSongFromText text =
  match titleOf text, styleOf text, lyricsOf text with
  | Some (t0 :: t), Some (s0 :: st), Some (l0 :: ly) =>
      Some (mkSong (t0 :: t) (voiceOf text) (s0 :: st)
                   (V7.tagsOf (rawTagsOf text)) (l0 :: ly))
  | _, _, _ => None
  end.
Proof.
  unfold V7.parseSongFromText.
  destruct (titleOf text) as [[|t0 t]|], (styleOf text) as [[|s0 st]|],
    (lyricsOf text) as [[|l0 ly]|]; reflexivity.
Qed.

Lemma match1_trim_no_header h0 h r text :
  includes (h0 :: h) text = false ->
  match1_trim (Seq (Chars (h0 :: h)) r) text = None.
Proof.
  intros H. unfold match1_trim. rewrite exec_header_none by exact H. reflexivity.
Qed.

Lemma titleOf_no_header text : includes hdrTitle text = false -> titleOf text = None.
Proof. apply match1_trim_no_header. Qed.

Lemma styleOf_no_header text : includes hdrStyle text = false -> styleOf text = None.
Proof. apply match1_trim_no_header. Qed.

Lemma lyricsOf_no_header text : includes hdrLyrics text = false -> lyricsOf text = None.
Proof. apply match1_trim_no_header. Qed.

Lemma rawTagsOf_no_header text : includes hdrTags text = false -> rawTagsOf text = None.
Proof. apply match1_trim_no_header. Qed.

Lemma voiceOf_no_header text : includes hdrVoice text = false -> voiceOf text = notSpecified.
Proof.
  intros H. unfold voiceOf, reVoice, reBlock, hdrVoice in *.
  rewrite match1_trim_no_header by exact H. reflexivity.
Qed.

(** The two revisions of the parser differ in the tags only. *)
Lemma V7_V8_parse_agree text :
  option_map (fun song => (title song, voice song, style song, lyrics song))
             (V7.parseSongFromText text)
  = option_map (fun song => (title song, voice song, style song, lyrics song))
               (V8.parseSongFromText text).
Proof.
  rewrite V7_parse_gate, V8_parse_gate.
  destruct (titleOf text) as [[|t0 t]|], (styleOf text) as [[|s0 st]|],
    (lyricsOf text) as [[|l0 ly]|]; reflexivity.
Qed.

End ParserFacts.

(** C1. The parser is all or nothing: a record that is returned carries the
    extracted title, style and lyrics, none of them empty; when the title,
    the style or the lyrics is absent or empty nothing is returned, whatever
    the other fields are; and a reply without the title header yields
    nothing. *)
Theorem parse_all_or_nothing (text : str) :
  (forall song, V8.parseSongFromText text = Some song ->
     titleOf text = Some (title song) /\ styleOf text = Some (style song) /\
     lyricsOf text = Some (lyrics song) /\
     title song <> [] /\ style song <> [] /\ lyrics song <> []) /\
  (missing (titleOf text) = true \/ missing (styleOf text) = true \/
   missing (lyricsOf text) = true -> V8.parseSongFromText text = None) /\
  (includes hdrTitle text = false -> V8.parseSongFromText text = None).
Proof.
  rewrite V8_parse_gate. split; [|split].
  - intros song.
    destruct (titleOf text) as [[|t0 t]|], (styleOf text) as [[|s0 st]|],
      (lyricsOf text) as [[|l0 ly]|]; try discriminate.
    intros [= <-]. cbn. repeat split; discriminate.
  - destruct (titleOf text) as [[|t0 t]|], (styleOf text) as [[|s0 st]|],
      (lyricsOf text) as [[|l0 ly]|]; try reflexivity.
    cbn. intros [H|[H|H]]; discriminate.
  - intros H. rewrite (titleOf_no_header _ H). reflexivity.
Qed.

Lemma parse_all_or_nothing_witness :
  includes hdrTitle replyWithoutTitle = false /\
  V8.parseSongFromText replyWithoutTitle = None /\
  rawTagsOf replyWithoutTitle = Some (lit "#120 BPM, #A Minor") /\
  styleOf replyWithoutTitle = Some (lit "Deep house, analog warmth").
Proof.
  split; [vm_compute; reflexivity|]. split.
  - apply (proj2 (proj2 (parse_all_or_nothing replyWithoutTitle))).
    vm_compute. reflexivity.
  - split; vm_compute; reflexivity.
Defined.

(** ** The parser: tags *)

(** Turning line breaks into commas and splitting on comma is splitting on
    both. *)
Lemma split_replace_all (s : str) :
  split COMMA (replace_all LF COMMA s) = split_where is_tag_separator s.
Proof.
  induction s as [|c s IH]; [reflexivity|].
  cbn [replace_all map split split_where]. fold (replace_all LF COMMA s).
  unfold is_tag_separator at 1.
  destruct (N.eqb_spec c LF) as [->|Hlf].
  - cbn. rewrite IH. reflexivity.
  - rewrite orb_false_r. destruct (N.eqb_spec c COMMA) as [->|Hc].
    + rewrite IH. reflexivity.
    + rewrite IH. reflexivity.
Qed.

Lemma V8_tagsOf_tagSequence (block : str) :
  V8.tagsOf (Some block) = tagSequence block.
Proof. unfold V8.tagsOf, tagSequence. rewrite split_replace_all. reflexivity. Qed.

Lemma filter_truthy_nonempty (l : list str) (x : str) :
  In x (filter truthy l) -> x <> [].
Proof.
  intros H. apply filter_In in H as [_ H]. destruct x; [discriminate H|discriminate].
Qed.

(** C2. The tag sequence of a parsed reply is the extracted tags block
    split on comma and on line break alike, every piece trimmed, the empty
    pieces dropped, order and "#" prefixes kept, duplicates kept; the block
    "#120 BPM, #A Minor\n#House" gives the three tags in order. *)
Theorem tags_split_on_comma_and_newline :
  (forall block, V8.tagsOf (Some block) = tagSequence block) /\
  (forall text song, V8.parseSongFromText text = Some song ->
     tags song = match rawTagsOf text with
                 | Some block => tagSequence block
                 | None => []
                 end) /\
  (forall block tag, In tag (V8.tagsOf (Some block)) -> tag <> []) /\
  V8.tagsOf (Some sampleTagsBlock) = [lit "#120 BPM"; lit "#A Minor"; lit "#House"] /\
  V8.tagsOf (Some (lit "#Pop,#Pop")) = [lit "#Pop"; lit "#Pop"] /\
  V8.tagsOf (Some []) = [].
Proof.
  pose proof V8_tagsOf_tagSequence as E.
  split; [exact E|]. split; [|split; [|split; [|split]]].
  - intros text song. rewrite V8_parse_gate.
    destruct (titleOf text) as [[|t0 t]|], (styleOf text) as [[|s0 st]|],
      (lyricsOf text) as [[|l0 ly]|]; try discriminate.
    intros [= <-]. cbn [tags]. destruct (rawTagsOf text); [apply E|reflexivity].
  - intros block tag. apply filter_truthy_nonempty.
  - vm_compute. reflexivity.
  - vm_compute. reflexivity.
  - reflexivity.
Qed.

Lemma tags_split_on_comma_and_newline_witness :
  V8.parseSongFromText sampleReply <> None /\
  rawTagsOf sampleReply = Some sampleTagsBlock /\
  option_map tags (V8.parseSongFromText sampleReply)
  = Some [lit "#120 BPM"; lit "#A Minor"; lit "#House"].
Proof.
  destruct (V8.parseSongFromText sampleReply) as [song|] eqn:P;
    [|vm_compute in P; discriminate P].
  split; [discriminate|]. split; [vm_compute; reflexivity|].
  cbn [option_map].
  rewrite (proj1 (proj2 tags_split_on_comma_and_newline) sampleReply song P).
  vm_compute. reflexivity.
Defined.

(** The older revision splits on comma only: a line break stays inside the
    tag. *)
Lemma V7_tags_split_on_comma_only :
  V7.tagsOf (Some sampleTagsBlock)
  = [lit "#120 BPM"; lit "#A Minor" ++ nl ++ lit "#House"].
Proof. vm_compute. reflexivity. Qed.

(** ** The parser: optional sections *)

(** C3, as stated, fails: Voice is not the only section whose header may be
    missing from a reply that still parses.  A reply without the tags
    header parses too. *)
Lemma voice_not_the_only_optional_header :
  ~ (forall text h, In h [hdrTitle; hdrTags; hdrStyle; hdrLyrics] ->
       includes h text = false -> V8.parseSongFromText text = None).
Proof.
  intros H. specialize (H replyWithoutTags hdrTags).
  assert (V8.parseSongFromText replyWithoutTags = None) as E.
  { apply H; [right; left; reflexivity | vm_compute; reflexivity]. }
  vm_compute in E. discriminate E.
Qed.

(** C3, amended.  A reply without the voice header gets the voice
    "Not specified", and one with the other four headers parses; a reply
    without the tags header gets the empty tag sequence; Voice and Tags are
    the two sections whose header may be missing, a reply without the title,
    the style or the lyrics header yields nothing. *)
Theorem voice_and_tags_are_optional :
  (forall text, includes hdrVoice text = false -> voiceOf text = notSpecified) /\
  (forall text song, includes hdrVoice text = false ->
     V8.parseSongFromText text = Some song -> voice song = notSpecified) /\
  V8.parseSongFromText replyWithoutVoice
  = Some (mkSong (lit "Neon Rain") notSpecified (lit "Deep house, analog warmth")
                 [lit "#120 BPM"; lit "#A Minor"]
                 (lit "[Verse 1]" ++ nl ++ lit "City lights")) /\
  (forall text song, includes hdrTags text = false ->
     V8.parseSongFromText text = Some song -> tags song = []) /\
  (forall text h, In h [hdrTitle; hdrStyle; hdrLyrics] ->
     includes h text = false -> V8.parseSongFromText text = None).
Proof.
  split; [exact voiceOf_no_header|]. split; [|split; [|split]].
  - intros text song Hv. rewrite V8_parse_gate.
    destruct (titleOf text) as [[|t0 t]|], (styleOf text) as [[|s0 st]|],
      (lyricsOf text) as [[|l0 ly]|]; try discriminate.
    intros [= <-]. cbn [voice]. apply voiceOf_no_header, Hv.
  - vm_compute. reflexivity.
  - intros text song Hg. rewrite V8_parse_gate.
    destruct (titleOf text) as [[|t0 t]|], (styleOf text) as [[|s0 st]|],
      (lyricsOf text) as [[|l0 ly]|]; try discriminate.
    intros [= <-]. cbn [tags]. rewrite (rawTagsOf_no_header _ Hg). reflexivity.
  - intros text h Hin Hh. rewrite V8_parse_gate.
    destruct Hin as [<-|[<-|[<-|[]]]].
    + rewrite (titleOf_no_header _ Hh). reflexivity.
    + rewrite (styleOf_no_header _ Hh). destruct (titleOf text) as [[|t0 t]|]; reflexivity.
    + rewrite (lyricsOf_no_header _ Hh).
      destruct (titleOf text) as [[|t0 t]|], (styleOf text) as [[|s0 st]|]; reflexivity.
Qed.

Lemma voice_and_tags_are_optional_witness :
  includes hdrVoice replyWithoutVoice = false /\
  option_map voice (V8.parseSongFromText replyWithoutVoice) = Some notSpecified /\
  includes hdrTags replyWithoutTags = false /\
  option_map tags (V8.parseSongFromText replyWithoutTags) = Some [] /\
  includes hdrStyle (lit "## Title: Neon Rain") = false /\
  V8.parseSongFromText (lit "## Title: Neon Rain") = None.
Proof.
  destruct voice_and_tags_are_optional as (_ & Hv & _ & Hg & Hr).
  assert (includes hdrVoice replyWithoutVoice = false) as Nv by (vm_compute; reflexivity).
  assert (includes hdrTags replyWithoutTags = false) as Ng by (vm_compute; reflexivity).
  assert (includes hdrStyle (lit "## Title: Neon Rain") = false) as Ns
    by (vm_compute; reflexivity).
  split; [exact Nv|]. split.
  { destruct (V8.parseSongFromText replyWithoutVoice) as [song|] eqn:P;
      [|vm_compute in P; discriminate P].
    cbn [option_map]. rewrite (Hv _ _ Nv P). reflexivity. }
  split; [exact Ng|]. split.
  { destruct (V8.parseSongFromText replyWithoutTags) as [song|] eqn:P;
      [|vm_compute in P; discriminate P].
    cbn [option_map]. rewrite (Hg _ _ Ng P). reflexivity. }
  split; [exact Ns|].
  apply (Hr _ hdrStyle); [right; left; reflexivity | exact Ns].
Defined.

(** ** The parser: replies built from known fields *)

Section Scanning.

Lemma clash_strip_prefix p x s : clash p x = true -> strip_prefix p (x ++ s) = None.
Proof.
  revert x; induction p as [|a p IH]; intros [|c x]; try discriminate.
  cbn. destruct (c =? a)%N; [apply IH|reflexivity].
Qed.

Lemma find_skip_literal p x s :
  clear_of p x = true -> find p (x ++ s) = prepend x (find p s).
Proof.
  induction x as [|c x IH]; cbn [clear_of app].
  - intros _. destruct (find p s) as [[b a]|]; reflexivity.
  - intros H. apply andb_true_iff in H as [Hc Hx].
    rewrite find_unfold. change (c :: x ++ s) with ((c :: x) ++ s).
    rewrite (clash_strip_prefix _ _ s Hc), (IH Hx).
    destruct (find p s) as [[b a]|]; reflexivity.
Qed.

Lemma find_skip_char p c s :
  clash p [c] = true -> find p (c :: s) = prepend [c] (find p s).
Proof.
  intros H. apply (find_skip_literal p [c] s). cbn [clear_of]. rewrite H. reflexivity.
Qed.

Lemma find_here p a : find p (p ++ a) = Some ([], a).
Proof. rewrite find_unfold, strip_prefix_app. reflexivity. Qed.

(** A pattern without line break that does not start inside a field does
    not start inside it when a line break follows the field either. *)
Lemma strip_prefix_before_LF p f s :
  existsb (N.eqb LF) p = false ->
  strip_prefix p f = None -> strip_prefix p (f ++ LF :: s) = None.
Proof.
  revert f; induction p as [|a p IH]; intros f Hp; [discriminate|].
  cbn [existsb] in Hp. apply orb_false_iff in Hp as [Ha Hp].
  destruct f as [|c f]; cbn [app strip_prefix].
  - intros _. rewrite Ha. reflexivity.
  - destruct (c =? a)%N; [apply IH, Hp|reflexivity].
Qed.

Lemma find_skip_field p f s :
  existsb (N.eqb LF) p = false ->
  clash p [LF] = true ->
  includes p f = false ->
  find p (f ++ LF :: s) = prepend (f ++ [LF]) (find p s).
Proof.
  intros Hp Hc. induction f as [|c f IH]; intros Hf.
  - cbn [app]. apply find_skip_char, Hc.
  - rewrite includes_unfold in Hf.
    destruct (strip_prefix p (c :: f)) eqn:E; [discriminate|].
    rewrite find_unfold. change ((c :: f) ++ LF :: s) with (c :: (f ++ LF :: s)) at 2.
    rewrite (strip_prefix_before_LF _ _ s Hp E), (IH Hf).
    destruct (find p s) as [[b a]|]; reflexivity.
Qed.

Lemma skip_while_all p w s : forallb p w = true -> skip_while p (w ++ s) = skip_while p s.
Proof.
  induction w as [|c w IH]; cbn; [trivial|].
  intros H. apply andb_true_iff in H as [-> H]. apply IH, H.
Qed.

Lemma skip_while_app_stop p v w c r :
  skip_while p v = c :: r -> skip_while p (v ++ w) = (c :: r) ++ w.
Proof.
  induction v as [|d v IH]; cbn; [discriminate|].
  destruct (p d); [exact IH|]. intros [= <- <-]. reflexivity.
Qed.

Lemma skip_while_nil p v : skip_while p v = [] -> forallb p v = true.
Proof.
  induction v as [|d v IH]; cbn; [trivial|].
  destruct (p d); [exact IH|discriminate].
Qed.

Lemma skip_while_forallb p q v : forallb q v = true -> forallb q (skip_while p v) = true.
Proof.
  induction v as [|d v IH]; cbn; [trivial|].
  intros H. apply andb_true_iff in H as [Hd H].
  destruct (p d); [apply IH, H|]. cbn. rewrite Hd, H. reflexivity.
Qed.

Lemma take_while_all p v c s :
  forallb p v = true -> p c = false -> take_while p (v ++ c :: s) = v.
Proof.
  induction v as [|d v IH]; cbn.
  - intros _ ->. reflexivity.
  - intros H Hc. apply andb_true_iff in H as [-> H]. rewrite (IH H Hc). reflexivity.
Qed.

Lemma trimEnd_all v w : forallb is_space w = true -> trimEnd (v ++ w) = trimEnd v.
Proof.
  intros H. unfold trimEnd, trimStart. rewrite rev_app_distr, skip_while_all; [reflexivity|].
  rewrite forallb_forall in *. intros x Hx. apply H, in_rev, Hx.
Qed.

(** White space around a field does not survive [trim]. *)
Lemma trim_padded w1 v w2 :
  forallb is_space w1 = true -> forallb is_space w2 = true ->
  trim (w1 ++ v ++ w2) = trim v.
Proof.
  intros H1 H2. unfold trim, trimStart. rewrite (skip_while_all _ _ _ H1).
  destruct (skip_while is_space v) as [|c r] eqn:E.
  - rewrite <- (app_nil_r (v ++ w2)), (skip_while_all is_space (v ++ w2) []);
      [reflexivity|].
    rewrite forallb_app, (skip_while_nil _ _ E), H2. reflexivity.
  - rewrite (skip_while_app_stop is_space v w2 _ _ E). apply trimEnd_all, H2.
Qed.

Lemma not_blank_trimStart f : not_blank f = true -> exists c r, trimStart f = c :: r.
Proof.
  unfold not_blank, trim. destruct (trimStart f) as [|c r]; [discriminate|]. eauto.
Qed.

Lemma not_blank_trim f : not_blank f = true -> exists c r, trim f = c :: r.
Proof. unfold not_blank. destruct (trim f) as [|c r]; [discriminate|]. eauto. Qed.

Lemma exec_block_between h n s :
  truthy h = true -> opens_visibly n = true ->
  exec (reBlock h n) s =
  match find h s with
  | Some (_, s1) =>
      match find n s1 with
      | Some (b, _) => Some (Some (trimStart b))
      | None => None
      end
  | None => None
  end.
Proof.
  destruct h as [|h0 h]; [discriminate|]. destruct n as [|n0 n]; [discriminate|].
  intros _ Hn. apply exec_block. apply negb_true_iff, Hn.
Qed.

Lemma header_free_includes f h :
  header_free f = true -> In h headers -> includes h f = false.
Proof.
  unfold header_free. rewrite forallb_forall. intros H Hin.
  apply negb_true_iff, H, Hin.
Qed.

Ltac scan :=
  repeat first
    [ rewrite find_here
    | rewrite find_skip_literal by reflexivity
    | rewrite find_skip_char by reflexivity
    | rewrite find_skip_field by (reflexivity || assumption) ];
  cbn [prepend app].

Ltac header_facts H f :=
  pose proof (header_free_includes f hdrVoice H ltac:(cbn; tauto));
  pose proof (header_free_includes f hdrTags H ltac:(cbn; tauto));
  pose proof (header_free_includes f hdrStyle H ltac:(cbn; tauto));
  pose proof (header_free_includes f hdrLyrics H ltac:(cbn; tauto)).

Section FormatReply.

Variables t v g st ly : str.
Hypothesis Ht : header_free t = true.
Hypothesis Hv : header_free v = true.
Hypothesis Hg : header_free g = true.
Hypothesis Hst : header_free st = true.

Lemma formatReply_shape :
  formatReply t v g st ly =
  hdrTitle ++ 32%N :: t ++ LF :: LF ::
  hdrVoice ++ LF :: v ++ LF :: LF ::
  hdrTags ++ LF :: g ++ LF :: LF ::
  hdrStyle ++ LF :: st ++ LF :: LF ::
  hdrLyrics ++ LF :: ly ++ [LF].
Proof. reflexivity. Qed.

Lemma voiceOf_formatReply : voiceOf (formatReply t v g st ly) = trim v.
Proof.
  header_facts Ht t. header_facts Hv v.
  unfold voiceOf, match1_trim, reVoice.
  rewrite exec_block_between by reflexivity.
  rewrite formatReply_shape. scan. scan.
  rewrite trim_trimStart.
  change (trim ([LF] ++ (v ++ [LF]) ++ [LF]) = trim v).
  rewrite <- app_assoc. apply (trim_padded [LF] v [LF; LF]); reflexivity.
Qed.

Lemma rawTagsOf_formatReply : rawTagsOf (formatReply t v g st ly) = Some (trim g).
Proof.
  header_facts Ht t. header_facts Hv v. header_facts Hg g.
  unfold rawTagsOf, match1_trim, reTags.
  rewrite exec_block_between by reflexivity.
  rewrite formatReply_shape. scan. scan.
  rewrite trim_trimStart.
  change (Some (trim ([LF] ++ (g ++ [LF]) ++ [LF])) = Some (trim g)).
  rewrite <- app_assoc. f_equal. apply (trim_padded [LF] g [LF; LF]); reflexivity.
Qed.

Lemma styleOf_formatReply : styleOf (formatReply t v g st ly) = Some (trim st).
Proof.
  header_facts Ht t. header_facts Hv v. header_facts Hg g. header_facts Hst st.
  unfold styleOf, match1_trim, reStyle.
  rewrite exec_block_between by reflexivity.
  rewrite formatReply_shape. scan. scan.
  rewrite trim_trimStart.
  change (Some (trim ([LF] ++ (st ++ [LF]) ++ [LF])) = Some (trim st)).
  rewrite <- app_assoc. f_equal. apply (trim_padded [LF] st [LF; LF]); reflexivity.
Qed.

Lemma lyricsOf_formatReply : lyricsOf (formatReply t v g st ly) = Some (trim ly).
Proof.
  header_facts Ht t. header_facts Hv v. header_facts Hg g. header_facts Hst st.
  unfold lyricsOf, match1_trim.
  rewrite exec_lyrics.
  rewrite formatReply_shape. scan.
  rewrite trim_trimStart. f_equal.
  apply (trim_padded [LF] ly [LF]); reflexivity.
Qed.

(** The title comes back when it is on one line and not blank. *)
Lemma titleOf_formatReply :
  forallb is_dot t = true -> not_blank t = true ->
  titleOf (formatReply t v g st ly) = Some (trim t).
Proof.
  intros Hline Hblank. destruct (not_blank_trimStart _ Hblank) as (c & r & E).
  unfold titleOf, match1_trim.
  rewrite formatReply_shape.
  match goal with |- context [t ++ LF :: ?R] => generalize R; intros rest end.
  rewrite (exec_title (hdrTitle ++ 32%N :: t ++ LF :: rest) []
             (32%N :: t ++ LF :: rest) c (r ++ LF :: rest)).
  - change (c :: r ++ LF :: rest) with ((c :: r) ++ LF :: rest).
    rewrite <- E, take_while_all; [rewrite trim_trimStart; reflexivity | | reflexivity].
    apply skip_while_forallb, Hline.
  - apply find_here.
  - change (32%N :: t ++ LF :: rest) with ([32%N] ++ t ++ LF :: rest).
    unfold trimStart in *. rewrite skip_while_all by reflexivity.
    apply (skip_while_app_stop is_space t (LF :: rest) c r E).
Qed.

End FormatReply.

End Scanning.

(** *** Tags joined and split again *)

Section JoinedTags.

Lemma split_where_piece sep piece d rest :
  forallb (fun c => negb (sep c)) piece = true -> sep d = true ->
  split_where sep (piece ++ d :: rest) = piece :: split_where sep rest.
Proof.
  intros Hp Hd. induction piece as [|c piece IH]; cbn [app split_where].
  - rewrite Hd. reflexivity.
  - cbn [forallb] in Hp. apply andb_true_iff in Hp as [Hc Hp].
    apply negb_true_iff in Hc. rewrite Hc, (IH Hp). reflexivity.
Qed.

Lemma split_where_last sep piece :
  forallb (fun c => negb (sep c)) piece = true -> split_where sep piece = [piece].
Proof.
  induction piece as [|c piece IH]; cbn [forallb split_where]; [reflexivity|].
  intros Hp. apply andb_true_iff in Hp as [Hc Hp].
  apply negb_true_iff in Hc. rewrite Hc, (IH Hp). reflexivity.
Qed.

Lemma opens_visibly_app a b : opens_visibly a = true -> opens_visibly (a ++ b) = true.
Proof. destruct a; [discriminate|trivial]. Qed.

Lemma opens_visibly_trim x :
  opens_visibly x = true -> opens_visibly (rev x) = true -> trim x = x.
Proof.
  intros H1 H2. unfold trim, trimEnd, trimStart.
  assert (forall y, opens_visibly y = true -> skip_while is_space y = y) as E.
  { intros [|c y]; [discriminate|]. cbn. intros H. apply negb_true_iff in H.
    rewrite H. reflexivity. }
  rewrite (E x H1), (E (rev x) H2). apply rev_involutive.
Qed.

Lemma plain_tag_parts tag :
  plain_tag tag = true ->
  opens_visibly tag = true /\ opens_visibly (rev tag) = true /\
  forallb (fun c => negb (is_tag_separator c)) tag = true.
Proof.
  unfold plain_tag. intros H. apply andb_true_iff in H as [H H3].
  apply andb_true_iff in H as [H1 H2]. auto.
Qed.

Lemma join_cons sep tag tag2 rest :
  join sep (tag :: tag2 :: rest) = tag ++ sep ++ join sep (tag2 :: rest).
Proof. reflexivity. Qed.

(** Joined plain tags open and end like a plain tag. *)
Lemma join_opens_visibly sep tag rest :
  forallb plain_tag (tag :: rest) = true ->
  opens_visibly (join sep (tag :: rest)) = true /\
  opens_visibly (rev (join sep (tag :: rest))) = true.
Proof.
  revert tag; induction rest as [|tag2 rest IH]; intros tag H;
    cbn [forallb] in H; apply andb_true_iff in H as [Ht Hr];
    destruct (plain_tag_parts _ Ht) as (T1 & T2 & _).
  - split; assumption.
  - rewrite join_cons. split; [apply opens_visibly_app, T1|].
    rewrite !rev_app_distr, <- app_assoc. apply opens_visibly_app, IH, Hr.
Qed.

Lemma tagSequence_join_padded d pad lead tag rest :
  separates_tags (d :: pad) = true ->
  forallb is_space lead = true ->
  forallb (fun c => negb (is_tag_separator c)) lead = true ->
  forallb plain_tag (tag :: rest) = true ->
  filter truthy
    (map trim (split_where is_tag_separator (lead ++ join (d :: pad) (tag :: rest))))
  = tag :: rest.
Proof.
  intros Hs. cbn [separates_tags] in Hs. apply andb_true_iff in Hs as [Hs Hp2].
  apply andb_true_iff in Hs as [Hd Hp1].
  assert (forall w x, forallb is_space w = true ->
            opens_visibly x = true -> opens_visibly (rev x) = true ->
            trim (w ++ x) = x) as trim_pad_tag.
  { intros w x W X1 X2. rewrite <- (app_nil_r x) at 1.
    rewrite (trim_padded w x [] W eq_refl). apply opens_visibly_trim; assumption. }
  revert tag lead; induction rest as [|tag2 rest IH]; intros tag lead L1 L2 H;
    cbn [forallb] in H; apply andb_true_iff in H as [Ht Hr];
    destruct (plain_tag_parts _ Ht) as (T1 & T2 & T3).
  - cbn [join]. rewrite split_where_last by (rewrite forallb_app, L2, T3; reflexivity).
    cbn [map filter]. rewrite (trim_pad_tag lead tag L1 T1 T2).
    destruct tag; [discriminate T1|reflexivity].
  - rewrite join_cons. cbn [app].
    replace (lead ++ tag ++ d :: pad ++ join (d :: pad) (tag2 :: rest))
      with ((lead ++ tag) ++ d :: (pad ++ join (d :: pad) (tag2 :: rest)))
      by (rewrite <- app_assoc; reflexivity).
    rewrite split_where_piece
      by (try exact Hd; rewrite forallb_app, L2, T3; reflexivity).
    cbn [map filter]. rewrite (trim_pad_tag lead tag L1 T1 T2), (IH _ pad Hp1 Hp2 Hr).
    destruct tag; [discriminate T1|reflexivity].
Qed.

(** Plain tags joined by a separator come back from the tag sequence. *)
Lemma tagSequence_join sep tags :
  separates_tags sep = true -> forallb plain_tag tags = true ->
  tagSequence (trim (join sep tags)) = tags.
Proof.
  intros Hs Ht. destruct tags as [|tag rest]; [reflexivity|].
  destruct (join_opens_visibly sep tag rest Ht) as [J1 J2].
  rewrite (opens_visibly_trim _ J1 J2).
  destruct sep as [|d pad]; [discriminate Hs|].
  exact (tagSequence_join_padded d pad [] tag rest Hs eq_refl eq_refl Ht).
Qed.

End JoinedTags.

(** C4, as stated, fails: a title of two lines is not empty, yet the reply
    built from it parses to a song whose title is the first line only. *)
Lemma round_trip_fails_on_two_line_title :
  ~ (forall sep song,
       title song <> [] -> style song <> [] -> lyrics song <> [] ->
       exists parsed,
         V8.parseSongFromText (renderSong sep song) = Some parsed /\
         title parsed = trim (title song) /\ voice parsed = trim (voice song) /\
         style parsed = trim (style song) /\ lyrics parsed = trim (lyrics song)).
Proof.
  intros H.
  destruct (H (lit ", ") twoLineTitleSong) as (parsed & P & T & _);
    try (vm_compute; discriminate).
  vm_compute in P. injection P as <-. vm_compute in T. discriminate T.
Qed.

(** C4, amended.  When the title is on one line, title, style and lyrics
    are not blank, and title, voice, tags block and style contain none of
    the five section headers, the reply built from the fields in the
    prescribed order parses to the trimmed title, voice, style and lyrics,
    and to the tags block split on comma and line break alike; the tags
    themselves come back when they are plain and joined by a comma or a
    line break, with or without white space behind it. *)
Theorem reply_round_trip (sep : str) (song : ParsedSong) :
  header_free (title song) = true -> header_free (voice song) = true ->
  header_free (join sep (tags song)) = true -> header_free (style song) = true ->
  forallb is_dot (title song) = true ->
  not_blank (title song) = true -> not_blank (style song) = true ->
  not_blank (lyrics song) = true ->
  V8.parseSongFromText (renderSong sep song)
  = Some (mkSong (trim (title song)) (trim (voice song)) (trim (style song))
                 (tagSequence (trim (join sep (tags song))))
                 (trim (lyrics song))) /\
  (separates_tags sep = true -> forallb plain_tag (tags song) = true ->
   V8.parseSongFromText (renderSong sep song)
   = Some (mkSong (trim (title song)) (trim (voice song)) (trim (style song))
                  (tags song) (trim (lyrics song)))).
Proof.
  intros Ht Hv Hg Hst Hline Bt Bst Bly. unfold renderSong.
  rewrite V8_parse_gate.
  rewrite (titleOf_formatReply _ _ _ _ _ Hline Bt).
  rewrite (styleOf_formatReply _ _ _ _ _ Ht Hv Hg Hst).
  rewrite (lyricsOf_formatReply _ _ _ _ _ Ht Hv Hg Hst).
  rewrite (voiceOf_formatReply _ _ _ _ _ Ht Hv).
  rewrite (rawTagsOf_formatReply _ _ _ _ _ Ht Hv Hg).
  destruct (not_blank_trim _ Bt) as (t0 & t' & ->).
  destruct (not_blank_trim _ Bst) as (s0 & s' & ->).
  destruct (not_blank_trim _ Bly) as (l0 & l' & ->).
  rewrite V8_tagsOf_tagSequence. split; [reflexivity|].
  intros Hs Hp. rewrite (tagSequence_join _ _ Hs Hp). reflexivity.
Qed.

Lemma reply_round_trip_witness :
  V8.parseSongFromText (renderSong (lit ", ") sampleSong)
  = Some (mkSong (lit "Neon Rain") (lit "Female, airy soprano")
                 (lit "Deep house, analog warmth")
                 [lit "#120 BPM"; lit "#A Minor"; lit "#House"]
                 (lit "[Verse 1]" ++ nl ++ lit "City lights")) /\
  V8.parseSongFromText (renderSong nl sampleSong)
  = Some (mkSong (lit "Neon Rain") (lit "Female, airy soprano")
                 (lit "Deep house, analog warmth")
                 [lit "#120 BPM"; lit "#A Minor"; lit "#House"]
                 (lit "[Verse 1]" ++ nl ++ lit "City lights")).
Proof.
  split.
  - refine (eq_trans
      (proj2 (reply_round_trip (lit ", ") sampleSong _ _ _ _ _ _ _ _) _ _) _);
      vm_compute; reflexivity.
  - refine (eq_trans
      (proj2 (reply_round_trip nl sampleSong _ _ _ _ _ _ _ _) _ _) _);
      vm_compute; reflexivity.
Defined.

(** ** The request assembler *)

Section ModeFacts.

Import V8.

Lemma modeLogic_canned prompt mode :
  In mode [RANDOM; CRAZY; KPOP_RANDOM; KPOP_3_VOICES; TRENDING] ->
  lookupMode mode (fst (modePrompts false)) = Some (fst (modeLogic prompt mode)).
Proof.
  intros [<-|[<-|[<-|[<-|[<-|[]]]]]]; reflexivity.
Qed.

Lemma modeLogic_normal prompt : fst (modeLogic prompt NORMAL) = prompt.
Proof. reflexivity. Qed.

Lemma modeLogic_thinking prompt :
  fst (modeLogic prompt THINKING) =
  if truthy (trim prompt) then prompt
  else lit "Compose a complex, layered musical masterpiece.".
Proof.
  unfold modeLogic. cbn [modePrompts trendingEntry fst snd lookupMode GeneratorMode_eqb].
  cbn [andb]. destruct (truthy (trim prompt)); reflexivity.
Qed.

End ModeFacts.

(** C5, as stated, fails: there is no single mode such that every other
    mode has a fixed directive.  Both [NORMAL] and [THINKING] pass the
    user's text on. *)
Lemma no_single_free_text_mode :
  ~ (exists free, forall mode, mode <> free ->
       exists canned, forall prompt, fst (V8.modeLogic prompt mode) = canned).
Proof.
  intros [free H].
  assert (exists mode, mode <> free /\
            fst (V8.modeLogic (lit "a") mode) = lit "a" /\
            fst (V8.modeLogic (lit "b") mode) = lit "b") as (mode & Hne & Ha & Hb).
  { destruct free.
    1: exists THINKING.
    all: try (exists NORMAL).
    all: split; [discriminate | split; vm_compute; reflexivity]. }
  destruct (H mode Hne) as [canned Hc].
  rewrite (Hc (lit "a")) in Ha. rewrite (Hc (lit "b")) in Hb.
  rewrite Ha in Hb. vm_compute in Hb. discriminate Hb.
Qed.

(** C5, amended.  For the five modes with a table entry other than
    [THINKING] the directive is the mode's canned text whatever the user
    typed, and the composed prompt is that text followed by the settings
    block; [THINKING] keeps the user's text when it is not blank and falls
    back to its canned text otherwise; [NORMAL] has no table entry and
    keeps the user's text. *)
Theorem mode_directive (prompt : str) (settings : StudioSettings)
    (isRadioEdit hasIntro : bool) (lyricsLanguage : LyricsLanguage) :
  (forall mode, In mode [RANDOM; CRAZY; KPOP_RANDOM; KPOP_3_VOICES; TRENDING] ->
     exists canned,
       lookupMode mode (fst (V8.modePrompts false)) = Some canned /\
       (forall typed, fst (V8.modeLogic typed mode) = canned) /\
       V8.composePrompt prompt mode settings isRadioEdit hasIntro lyricsLanguage
       = canned ++ V8.studioSettingsBlock settings isRadioEdit hasIntro lyricsLanguage) /\
  (truthy (trim prompt) = true -> fst (V8.modeLogic prompt THINKING) = prompt) /\
  (truthy (trim prompt) = false ->
     fst (V8.modeLogic prompt THINKING)
     = lit "Compose a complex, layered musical masterpiece.") /\
  fst (V8.modeLogic prompt NORMAL) = prompt /\
  lookupMode NORMAL (fst (V8.modePrompts false)) = None.
Proof.
  split; [|split; [|split; [|split]]].
  - intros mode Hin. exists (fst (V8.modeLogic prompt mode)).
    split; [apply modeLogic_canned, Hin|]. split; [|reflexivity].
    intros typed. pose proof (modeLogic_canned prompt mode Hin) as E1.
    pose proof (modeLogic_canned typed mode Hin) as E2. congruence.
  - intros H. rewrite modeLogic_thinking, H. reflexivity.
  - intros H. rewrite modeLogic_thinking, H. reflexivity.
  - reflexivity.
  - reflexivity.
Qed.

Lemma mode_directive_witness :
  fst (V8.modeLogic (lit "a waltz about rain") THINKING) = lit "a waltz about rain" /\
  fst (V8.modeLogic (lit "   ") THINKING)
  = lit "Compose a complex, layered musical masterpiece." /\
  fst (V8.modeLogic (lit "a waltz about rain") CRAZY)
  = lit "Fuse incompatible genres into an experimental but coherent track.".
Proof.
  pose (st := mkStudio (mkMood 50 50 50) (mkVocal Any Any) Auto).
  split; [|split].
  - apply (proj1 (proj2 (mode_directive (lit "a waltz about rain") st false false ENGLISH))).
    vm_compute. reflexivity.
  - apply (proj1 (proj2 (proj2 (mode_directive (lit "   ") st false false ENGLISH)))).
    vm_compute. reflexivity.
  - destruct (proj1 (mode_directive (lit "a waltz about rain") st false false ENGLISH) CRAZY)
      as (canned & L & D & _); [cbn; tauto|].
    rewrite D. vm_compute in L. injection L as <-. vm_compute. reflexivity.
Defined.

(** The older revision has no entry for [THINKING]: the user's text passes,
    blank or not. *)
Lemma V7_thinking_keeps_prompt prompt :
  fst (V7.modeLogic prompt THINKING) = prompt.
Proof. reflexivity. Qed.

(** ** The search flag *)

(** C6 fails on the code.  The [TRENDING] entry of the mode table is
    evaluated together with the table, for every mode, so [useSearch] is
    set whatever the mode is, and the first session is created with the
    search tool in every mode; [RANDOM] is one of them. *)
Theorem search_flag_set_for_every_mode
    (Temperature Error : Type) (prompt : str) (mode : GeneratorMode)
    (settings : StudioSettings) (generation : Generation Temperature)
    (isRadioEdit hasIntro : bool) (lyricsLanguage : LyricsLanguage)
    (history : list HistoryEntry)
    (service : Service Temperature Error) (signalAborted : option bool) :
  snd (V8.modeLogic prompt mode) = true /\
  option_map callSearchTool
    (hd_error (fst (V8.generateContentResponse prompt mode settings generation
                      isRadioEdit hasIntro lyricsLanguage history service
                      signalAborted)))
  = Some true /\
  snd (V8.modeLogic prompt RANDOM) = true /\
  snd (V7.modeLogic prompt RANDOM) = true.
Proof.
  split; [reflexivity|]. split; [|split; reflexivity].
  unfold V8.generateContentResponse.
  destruct (service 0 _) as [text|err]; [reflexivity|].
  destruct signalAborted as [[|]|]; reflexivity.
Qed.

(** ** The language clause *)

(** C7, as stated, fails: the clause for English lyrics says nothing about
    the style or the tags. *)
Lemma english_clause_is_silent_on_style_and_tags :
  V8.langConstraint ENGLISH = lit "Lyrics in ENGLISH only." /\
  includes (lit "Style") (V8.langConstraint ENGLISH) = false /\
  includes (lit "Tags") (V8.langConstraint ENGLISH) = false.
Proof. repeat split; vm_compute; reflexivity. Qed.

(** C7, amended.  Every request carries one language line, whose clause is
    one of three fixed sentences chosen by the language; the sentences for
    Arabic and for mixed lyrics end by keeping style and tags in English,
    the sentence for English lyrics is about the lyrics only. *)
Theorem language_clause (prompt : str) (mode : GeneratorMode)
    (settings : StudioSettings) (isRadioEdit hasIntro : bool)
    (lyricsLanguage : LyricsLanguage) :
  (exists before behind,
     V8.composePrompt prompt mode settings isRadioEdit hasIntro lyricsLanguage
     = before ++ lit "Language: " ++ V8.langConstraint lyricsLanguage ++ nl ++ behind /\
     forall other,
       V8.composePrompt prompt mode settings isRadioEdit hasIntro other
       = before ++ lit "Language: " ++ V8.langConstraint other ++ nl ++ behind) /\
  In (V8.langConstraint lyricsLanguage)
     [lit "Lyrics in ENGLISH only.";
      lit "Lyrics strictly in ARABIC (Egyptian/Gulf). Style & Tags in ENGLISH.";
      lit "Lyrics in Arabic + English mix. Style & Tags in ENGLISH."] /\
  (lyricsLanguage <> ENGLISH ->
     exists lyricsPart,
       V8.langConstraint lyricsLanguage
       = lyricsPart ++ lit " Style & Tags in ENGLISH.") /\
  (lyricsLanguage = ENGLISH ->
     V8.langConstraint lyricsLanguage = lit "Lyrics in ENGLISH only.").
Proof.
  split; [|split; [|split]].
  - unfold V8.composePrompt, V8.studioSettingsBlock.
    exists (fst (V8.modeLogic prompt mode) ++
            nl ++ lit "=== STUDIO SETTINGS ===" ++ nl ++
            lit "Tone: " ++
            V8.orElse
              (join (lit ", ") (V8.moodDesc (mood settings) (structure settings)))
              (lit "Balanced") ++ nl ++
            V8.vocalConstraint (vocal settings) ++ nl ++
            V8.structureConstraint (structure settings) ++ nl).
    exists ((if hasIntro then lit "Include [Instrumental Intro]" else []) ++ nl ++
            (if isRadioEdit then lit "Keep under 3 minutes (Radio Edit)" else []) ++ nl ++
            nl ++ lit "[CRITICAL OUTPUT RULE]" ++ nl ++
            lit "BPM and Musical Key MUST appear inside ## Tags." ++ nl).
    split; [|intros other]; repeat rewrite <- app_assoc; reflexivity.
  - destruct lyricsLanguage; cbn; tauto.
  - destruct lyricsLanguage; [congruence| |]; intros _.
    + exists (lit "Lyrics strictly in ARABIC (Egyptian/Gulf)."). reflexivity.
    + exists (lit "Lyrics in Arabic + English mix."). reflexivity.
  - intros ->. reflexivity.
Qed.

Lemma language_clause_witness :
  exists lyricsPart,
    V8.langConstraint ARABIC = lyricsPart ++ lit " Style & Tags in ENGLISH.".
Proof.
  apply (proj1 (proj2 (proj2
    (language_clause [] NORMAL (mkStudio (mkMood 50 50 50) (mkVocal Any Any) Auto)
                     false false ARABIC)))).
  discriminate.
Defined.

(** The older revision is alike: its English sentence is about the lyrics
    only. *)
Lemma V7_english_clause :
  V7.langConstraint ENGLISH = lit "Write lyrics in English only.".
Proof. reflexivity. Qed.

(** ** The vocal constraint *)

Lemma eqb_eq (a b : str) : eqb a b = true <-> a = b.
Proof.
  unfold eqb. destruct (list_eq_dec N.eq_dec a b); split; congruence.
Qed.

(** In both revisions the clause is written exactly when the gender or the
    texture is not ['Any']. *)
Lemma vocal_clause_emitted (vocal : Vocal) :
  (V8.vocalConstraint vocal <> [] <-> gender vocal <> Any \/ texture vocal <> Any) /\
  (V7.vocalInstruction vocal <> [] <-> gender vocal <> Any \/ texture vocal <> Any).
Proof.
  unfold V8.vocalConstraint, V7.vocalInstruction.
  destruct (eqb (gender vocal) Any) eqn:G, (eqb (texture vocal) Any) eqn:T; cbn [negb orb].
  1: apply eqb_eq in G, T; split; (split; [congruence | intros [H|H]; congruence]).
  all: split; (split; [intros _ | intros _; discriminate]).
  all: try (right; intros E; apply eqb_eq in E; congruence).
  all: left; intros E; apply eqb_eq in E; congruence.
Qed.

(** C8 fails on the current revision.  The clause is written when it
    should be, but it always writes both fields: with the gender set and
    the texture left at ['Any'], the word "Any" is in the clause. *)
Theorem vocal_clause_writes_default_field :
  V8.vocalConstraint (mkVocal (lit "Male") Any)
  = lit "[CONSTRAINT: Voice must be Any Male]" /\
  V8.vocalConstraint (mkVocal Any (lit "Raspy"))
  = lit "[CONSTRAINT: Voice must be Raspy Any]" /\
  includes Any (V8.vocalConstraint (mkVocal (lit "Male") Any)) = true.
Proof. repeat split; vm_compute; reflexivity. Qed.

(** The older revision writes a field only when it is set. *)
Lemma V7_vocal_clause_skips_default_field :
  V7.vocalInstruction (mkVocal (lit "Male") Any)
  = lit "[CONSTRAINT: Voice must be  Male]" /\
  V7.vocalInstruction (mkVocal Any (lit "Raspy"))
  = lit "[CONSTRAINT: Voice must be Raspy ]" /\
  includes Any (V7.vocalInstruction (mkVocal (lit "Male") Any)) = false.
Proof. repeat split; vm_compute; reflexivity. Qed.

(** ** The fallback retry *)

Section Fallback.

Context {Temperature Error : Type}.
Variables (prompt : str) (mode : GeneratorMode) (settings : StudioSettings)
          (generation : Generation Temperature) (isRadioEdit hasIntro : bool)
          (lyricsLanguage : LyricsLanguage) (history : list HistoryEntry)
          (service : Service Temperature Error).

Let finalPrompt : str :=
  V8.composePrompt prompt mode settings isRadioEdit hasIntro lyricsLanguage.

Let first : Call Temperature :=
  V8.createSession mode generation history finalPrompt
    (V8.modelName mode generation) (snd (V8.modeLogic prompt mode)).

Let second : Call Temperature :=
  V8.createSession mode generation history finalPrompt gemini_2_5_flash false.

Let run (signalAborted : option bool) : list (Call Temperature) * Outcome Error :=
  V8.generateContentResponse prompt mode settings generation
    isRadioEdit hasIntro lyricsLanguage history service signalAborted.

(** C9.  When the first call fails and the signal is not aborted, one more
    call is made, on gemini-2.5-flash, without the search tool and with the
    same message, and its outcome, a failure included, is the outcome of
    the whole; when the signal is aborted, the error of the first call is
    the outcome and no other call is made. *)
Theorem fallback_retry (signalAborted : option bool) (err : Error) :
  service 0 first = Failure err ->
  (signalAborted <> Some true ->
     run signalAborted = ([first; second], service 1 second) /\
     callModel second = gemini_2_5_flash /\ callSearchTool second = false /\
     callMessage second = callMessage first /\ callHistory second = callHistory first /\
     forall err2, service 1 second = Failure err2 ->
       snd (run signalAborted) = Failure err2) /\
  (signalAborted = Some true -> run signalAborted = ([first], Failure err)).
Proof.
  intros F. subst run. cbv beta. unfold V8.generateContentResponse.
  fold finalPrompt. fold first. rewrite F. fold second.
  split.
  - intros Hs. destruct signalAborted as [[|]|]; [congruence| |];
      (split; [reflexivity|]); repeat split; intros err2 ->; reflexivity.
  - intros ->. reflexivity.
Qed.

(** A first call that succeeds is the only call. *)
Lemma no_retry_on_success (signalAborted : option bool) (text : option str) :
  service 0 first = Reply text -> run signalAborted = ([first], Reply text).
Proof.
  intros F. subst run. cbv beta. unfold V8.generateContentResponse.
  fold finalPrompt. fold first. rewrite F. reflexivity.
Qed.

End Fallback.

(** The older revision retries in the same way. *)
Lemma V7_fallback_retry (Temperature Error : Type)
    (prompt : str) (mode : GeneratorMode) (settings : StudioSettings)
    (generation : Generation Temperature) (isRadioEdit hasIntro : bool)
    (lyricsLanguage : LyricsLanguage) (history : list HistoryEntry)
    (service : Service Temperature Error) (signalAborted : option bool) (err : Error) :
  let finalPrompt := V7.composePrompt prompt mode settings isRadioEdit hasIntro lyricsLanguage in
  let first := V7.createSession generation history finalPrompt (V7.modelName generation)
                 (snd (V7.modeLogic prompt mode)) in
  let second := V7.createSession generation history finalPrompt gemini_2_5_flash false in
  service 0 first = Failure err ->
  V7.generateContentResponse prompt mode settings generation isRadioEdit hasIntro
    lyricsLanguage history service signalAborted
  = match signalAborted with
    | Some true => ([first], Failure err)
    | _ => ([first; second], service 1 second)
    end.
Proof.
  intros finalPrompt first second F. unfold V7.generateContentResponse.
  fold finalPrompt. fold first. rewrite F. reflexivity.
Qed.

Lemma fallback_retry_witness :
  snd (V8.generateContentResponse (lit "rain") NORMAL sampleSettings
         sampleGeneration false false ENGLISH [] flakyService (Some false))
  = Reply (Some (lit "ok")) /\
  length (fst (V8.generateContentResponse (lit "rain") NORMAL sampleSettings
                 sampleGeneration false false ENGLISH [] flakyService None)) = 2 /\
  snd (V8.generateContentResponse (lit "rain") NORMAL sampleSettings
         sampleGeneration false false ENGLISH [] downService None)
  = Failure (lit "503") /\
  length (fst (V8.generateContentResponse (lit "rain") NORMAL sampleSettings
                 sampleGeneration false false ENGLISH [] flakyService (Some true))) = 1.
Proof.
  pose proof (fallback_retry (lit "rain") NORMAL sampleSettings sampleGeneration
                false false ENGLISH [] flakyService) as R.
  pose proof (fallback_retry (lit "rain") NORMAL sampleSettings sampleGeneration
                false false ENGLISH [] downService None (lit "503") eq_refl) as D.
  destruct (R (Some false) (lit "503") eq_refl) as [R1 _].
  destruct (R None (lit "503") eq_refl) as [R2 _].
  destruct (R (Some true) (lit "503") eq_refl) as [_ R3].
  destruct D as [D _].
  destruct (R1 ltac:(discriminate)) as [E1 _].
  destruct (R2 ltac:(discriminate)) as [E2 _].
  destruct (D ltac:(discriminate)) as (_ & _ & _ & _ & _ & E3).
  rewrite E1, E2, (R3 eq_refl), (E3 (lit "503") eq_refl). repeat split.
Defined.

(** ** The chat session *)

Lemma js_eqb_spec (a b : str) : Js.eqb a b = true <-> a = b.
Proof.
  unfold Js.eqb. destruct (list_eq_dec N.eq_dec a b); split; congruence.
Qed.

Section SessionFacts.

Import stdpp.base stdpp.list stdpp.gmap.
Import App.

Lemma aborted_abort c controllers :
  c < length controllers -> aborted c (abort c controllers) = true.
Proof.
  intros H. unfold aborted, abort. rewrite list_lookup_insert_eq by exact H. reflexivity.
Qed.

Lemma aborted_abort_other c d controllers :
  c <> d -> aborted c (abort d controllers) = aborted c controllers.
Proof.
  intros H. unfold aborted, abort. rewrite list_lookup_insert_ne by congruence. reflexivity.
Qed.

Lemma aborted_grow c controllers :
  c < length controllers -> aborted c (controllers ++ [false]) = aborted c controllers.
Proof.
  intros H. unfold aborted. rewrite lookup_app_l by exact H. reflexivity.
Qed.

Lemma length_abort c controllers : length (abort c controllers) = length controllers.
Proof. apply length_insert. Qed.

Lemma length_supersede s : length (supersede s) = length (controllers s).
Proof. unfold supersede. destruct (abortControllerRef s); [apply length_abort|reflexivity]. Qed.

Lemma supersede_aborts s c a :
  Consistent s -> inFlight s !! c = Some a -> aborted c (supersede s) = true.
Proof.
  intros I F. unfold supersede.
  destruct (abortControllerRef s) as [d|] eqn:R.
  - destruct (decide (c = d)) as [->|Hne].
    + apply aborted_abort. eapply flight_created; eassumption.
    + rewrite aborted_abort_other by exact Hne.
      eapply superseded_aborted; [exact I|exact F|]. rewrite R. congruence.
  - eapply superseded_aborted; [exact I|exact F|]. rewrite R. congruence.
Qed.

Lemma initial_consistent : Consistent initial.
Proof. split; cbn; intros; (discriminate || (by rewrite lookup_empty in *)). Qed.

(** Whether [handleSend] goes past its two early returns and starts a
    request. *)
Lemma handleSend_cases now text mode s :
  handleSend now text mode s = s \/
  (messages (handleSend now text mode s) = messages s /\
   abortControllerRef (handleSend now text mode s) = abortControllerRef s /\
   controllers (handleSend now text mode s) = controllers s /\
   inFlight (handleSend now text mode s) = inFlight s) \/
  handleSend now text mode s =
    mkState (messages s ++ [mkMessage (IdTime now) user (displayContent text mode)])
            (Some (length (controllers s))) (supersede s ++ [false])
            (<[length (controllers s) := (now + 1)%N]> (inFlight s)) true None.
Proof.
  unfold handleSend.
  destruct (GeneratorMode_eqb mode NORMAL && _); [right; left; repeat split|].
  destruct (negb (truthy (trim text)) && _); [left; reflexivity|].
  right; right. rewrite length_supersede. reflexivity.
Qed.

Lemma handleSend_consistent now text mode s :
  Consistent s -> Consistent (handleSend now text mode s).
Proof.
  intros I. destruct (handleSend_cases now text mode s) as [->|[(Em & Er & Ec & Ef)| ->]].
  - exact I.
  - destruct I as [I1 I2 I3]. split; rewrite ?Er, ?Ec, ?Ef; assumption.
  - split; cbn [controllers inFlight abortControllerRef].
    + intros c a. rewrite length_app, length_supersede. cbn.
      destruct (decide (c = length (controllers s))) as [->|Hne]; [lia|].
      rewrite lookup_insert_ne by congruence. intros F.
      pose proof (flight_created _ I _ _ F). lia.
    + intros c [= <-]. rewrite length_app, length_supersede. cbn. lia.
    + intros c a F Hc.
      assert (c <> length (controllers s)) as Hne by congruence.
      rewrite lookup_insert_ne in F by congruence.
      rewrite aborted_grow
        by (rewrite length_supersede; eapply flight_created; eassumption).
      eapply supersede_aborts; eassumption.
Qed.

Lemma handleClear_consistent s : Consistent s -> Consistent (handleClear s).
Proof.
  intros I. split; cbn [handleClear controllers inFlight abortControllerRef].
  - intros c a F. rewrite length_supersede. eapply flight_created; eassumption.
  - discriminate.
  - intros c a F _. eapply supersede_aborts; eassumption.
Qed.

Lemma finish_fields c s :
  messages (finish c s) = messages s /\ controllers (finish c s) = controllers s /\
  inFlight (finish c s) = inFlight s /\
  (abortControllerRef (finish c s) = abortControllerRef s \/
   abortControllerRef s = Some c /\ abortControllerRef (finish c s) = None).
Proof.
  unfold finish. destruct (decide (abortControllerRef s = Some c)) as [E|E]; cbn; auto 6.
Qed.

(** What the part of [handleSend] behind the [await] does to the
    messages. *)
Lemma resume_messages aid c outcome s :
  messages (resume aid c outcome s) =
  match outcome with
  | Reply (Some (c0 :: rest)) =>
      if aborted c (controllers s) then messages s
      else messages s ++ [mkMessage (IdTime aid) model (c0 :: rest)]
  | _ => messages s
  end.
Proof.
  unfold resume.
  match goal with |- messages (finish c ?x) = _ =>
    rewrite (proj1 (finish_fields c x)) end.
  destruct outcome as [[[|c0 rest]|]|err]; try reflexivity.
  - destruct (aborted c (controllers s)); reflexivity.
  - destruct (aborted c (controllers s)); reflexivity.
  - destruct (aborted c (controllers s)); reflexivity.
  - destruct (Js.eqb (errName err) (lit "AbortError") || aborted c (controllers s));
      reflexivity.
Qed.

Lemma resume_fields aid c outcome s :
  controllers (resume aid c outcome s) = controllers s /\
  inFlight (resume aid c outcome s) = inFlight s /\
  (abortControllerRef (resume aid c outcome s) = abortControllerRef s \/
   abortControllerRef s = Some c /\ abortControllerRef (resume aid c outcome s) = None).
Proof.
  unfold resume.
  match goal with |- context [finish c ?x] =>
    destruct (finish_fields c x) as (_ & -> & -> & R);
    assert (controllers x = controllers s /\ inFlight x = inFlight s /\
            abortControllerRef x = abortControllerRef s) as (-> & -> & E)
  end.
  { destruct outcome as [[[|c0 rest]|]|err];
      repeat match goal with |- context [if ?b then _ else _] => destruct b end;
      repeat split. }
  rewrite E in R. auto.
Qed.

Lemma step_consistent e s : Consistent s -> Consistent (step e s).
Proof.
  intros I. destruct e as [now text mode|c outcome|]; cbn [step].
  - apply handleSend_consistent, I.
  - destruct (inFlight s !! c) as [aid|] eqn:F; [|exact I].
    destruct (resume_fields aid c outcome s) as (Ec & Ef & Er).
    split; cbn [controllers inFlight abortControllerRef]; rewrite ?Ec, ?Ef.
    + intros d a. destruct (decide (c = d)) as [->|Hne].
      * rewrite lookup_delete_eq. discriminate.
      * rewrite lookup_delete_ne by exact Hne. apply (flight_created _ I).
    + intros d Hd. destruct Er as [Er|[_ Er]]; rewrite Er in Hd; [|discriminate].
      apply (current_created _ I), Hd.
    + intros d a. destruct (decide (c = d)) as [->|Hne].
      * rewrite lookup_delete_eq. discriminate.
      * rewrite lookup_delete_ne by exact Hne. intros Fd Hd.
        apply (superseded_aborted _ I d a Fd).
        destruct Er as [Er|[Er _]]; rewrite Er in *; [exact Hd|congruence].
  - apply handleClear_consistent, I.
Qed.

Lemma run_consistent events s : Consistent s -> Consistent (run events s).
Proof.
  revert s; induction events as [|e events IH]; intros s I; [exact I|].
  apply IH, step_consistent, I.
Qed.

Lemma settle_messages c outcome s :
  messages (step (Settle c outcome) s) =
  match inFlight s !! c, outcome with
  | Some aid, Reply (Some (c0 :: rest)) =>
      if aborted c (controllers s) then messages s
      else messages s ++ [mkMessage (IdTime aid) model (c0 :: rest)]
  | _, _ => messages s
  end.
Proof.
  cbn [step]. destruct (inFlight s !! c) as [aid|]; [|reflexivity].
  cbn [messages]. apply resume_messages.
Qed.

(** *** The current request *)

Import Session.

Lemma handleSend_starts now text mode s :
  handleSend now text mode s =
  if starts text mode then started now text mode s
  else if GeneratorMode_eqb mode NORMAL && Js.eqb (toLowerCase (trim text)) (lit "dain")
       then mkState (messages s) (abortControllerRef s) (controllers s) (inFlight s)
                    (isLoading s)
                    (Some (lit "Developer Mode Activated " ++ [55357; 57056; 65039]%N))
       else s.
Proof.
  unfold handleSend, starts, started.
  destruct (GeneratorMode_eqb mode NORMAL && Js.eqb _ _); [reflexivity|].
  destruct (negb (truthy (trim text)) && _); [reflexivity|].
  cbn [negb andb]. rewrite length_supersede. reflexivity.
Qed.

Lemma aborted_fresh controllers : aborted (length controllers) (controllers ++ [false]) = false.
Proof.
  unfold aborted. rewrite lookup_app_r by lia. rewrite Nat.sub_diag. reflexivity.
Qed.

Lemma resume_current aid c outcome s :
  (abortControllerRef s = Some c ->
     isLoading (resume aid c outcome s) = false /\
     abortControllerRef (resume aid c outcome s) = None) /\
  (abortControllerRef s <> Some c ->
     isLoading (resume aid c outcome s) = isLoading s /\
     abortControllerRef (resume aid c outcome s) = abortControllerRef s).
Proof.
  unfold resume.
  match goal with |- context [finish c ?x] =>
    assert (isLoading x = isLoading s /\ abortControllerRef x = abortControllerRef s)
      as [El Er]; [|unfold finish; rewrite Er]
  end.
  { destruct outcome as [[[|c0 rest]|]|err];
      repeat match goal with |- context [if ?b then _ else _] => destruct b end;
      split; reflexivity. }
  destruct (decide (abortControllerRef s = Some c)); split; intros H;
    try contradiction; cbn; auto.
Qed.

Lemma step_current e s : Consistent s -> Current s -> Current (step e s).
Proof.
  intros I [L F]. destruct e as [now text mode|c outcome|]; cbn [step].
  - rewrite handleSend_starts. destruct (starts text mode).
    + split; cbn [started isLoading abortControllerRef inFlight controllers].
      * split; [discriminate|reflexivity].
      * intros c [= <-]. split; [rewrite lookup_insert_eq; eauto|].
        rewrite <- (length_supersede s). apply aborted_fresh.
    + destruct (GeneratorMode_eqb mode NORMAL && _); split; assumption.
  - destruct (inFlight s !! c) as [aid|] eqn:Fc; [|split; assumption].
    destruct (resume_fields aid c outcome s) as (Ec & Ef & _).
    destruct (resume_current aid c outcome s) as [Rc Rn].
    split; cbn [isLoading abortControllerRef inFlight controllers]; rewrite ?Ec, ?Ef.
    + destruct (decide (abortControllerRef s = Some c)) as [E|E].
      * destruct (Rc E) as [-> ->]. split; [discriminate|congruence].
      * destruct (Rn E) as [-> ->]. exact L.
    + intros d Hd. destruct (decide (abortControllerRef s = Some c)) as [E|E].
      * destruct (Rc E) as [_ R]. rewrite R in Hd. discriminate.
      * destruct (Rn E) as [_ R]. rewrite R in Hd.
        destruct (F d Hd) as [Fd Ad]. split; [|exact Ad].
        rewrite lookup_delete_ne by congruence. exact Fd.
  - split; cbn [handleClear isLoading abortControllerRef].
    + split; [discriminate|congruence].
    + discriminate.
Qed.

Lemma run_current events s :
  Consistent s -> Current s -> Current (run events s) /\ Consistent (run events s).
Proof.
  revert s; induction events as [|e events IH]; intros s I C; [split; assumption|].
  cbn [run]. apply IH; [apply step_consistent, I|apply step_current; assumption].
Qed.

Lemma initial_current : Current initial.
Proof.
  split; cbn.
  - split; [discriminate|congruence].
  - discriminate.
Qed.

(** Settling a request whose controller is aborted, and is not the
    current one, changes nothing but the set of requests in flight. *)
Lemma settle_aborted c aid outcome s :
  inFlight s !! c = Some aid -> aborted c (controllers s) = true ->
  abortControllerRef s <> Some c ->
  step (Settle c outcome) s = landed c s.
Proof.
  intros Fc A R. cbn [step]. rewrite Fc. unfold landed.
  assert (resume aid c outcome s = s) as ->; [|reflexivity].
  unfold resume. rewrite A.
  assert (forall x, x = s -> finish c x = s) as Fin.
  { intros x ->. unfold finish. destruct (decide (abortControllerRef s = Some c));
      [contradiction|reflexivity]. }
  apply Fin. destruct outcome as [text|err]; [reflexivity|].
  rewrite orb_true_r. reflexivity.
Qed.

Lemma clear_quiet s : Consistent s -> Quiet (handleClear s).
Proof.
  intros I. split; [reflexivity|]. cbn [handleClear inFlight controllers].
  intros c a Fc. eapply supersede_aborts; eassumption.
Qed.

Lemma settles_quiet rest s :
  forallb isSettle rest = true -> Quiet s ->
  messages (run rest s) = messages s /\ errorToast (run rest s) = errorToast s /\
  isLoading (run rest s) = isLoading s /\ Quiet (run rest s).
Proof.
  revert s; induction rest as [|e rest IH]; intros s Hr Q; [auto|].
  cbn [forallb] in Hr. apply andb_true_iff in Hr as [He Hr].
  destruct e as [| c outcome |]; try discriminate He. cbn [run].
  destruct Q as [Qr Qa].
  destruct (inFlight s !! c) as [aid|] eqn:Fc.
  - rewrite (settle_aborted c aid outcome s Fc (Qa _ _ Fc)) by (rewrite Qr; discriminate).
    apply (IH (landed c s) Hr). split; [exact Qr|].
    cbn [landed inFlight controllers]. intros d a Fd.
    destruct (decide (c = d)) as [->|Hne]; [rewrite lookup_delete_eq in Fd; discriminate|].
    rewrite lookup_delete_ne in Fd by exact Hne. apply (Qa _ _ Fd).
  - cbn [step]. rewrite Fc. apply (IH s Hr). split; assumption.
Qed.

Lemma starts_spec text mode :
  starts text mode = true <->
  mode <> NORMAL \/ (trim text <> [] /\ toLowerCase (trim text) <> lit "dain").
Proof.
  unfold starts. remember (trim text) as T eqn:ET.
  remember (toLowerCase T) as L eqn:EL. remember (lit "dain") as dn eqn:Edn.
  clear ET EL Edn. pose proof (js_eqb_spec L dn) as D.
  destruct (Js.eqb L dn); destruct T as [|c r]; destruct mode; cbn;
    intuition (congruence || discriminate).
Qed.

(** Apart from a clear, an event leaves the messages that are there in
    their places. *)
Lemma step_extends e s :
  e <> Clear -> exists tail, messages (step e s) = messages s ++ tail.
Proof.
  intros He. destruct e as [now text mode|c outcome|]; [| |contradiction].
  - cbn [step]. rewrite handleSend_starts. destruct (starts text mode).
    + eexists. reflexivity.
    + exists []. rewrite app_nil_r.
      destruct (GeneratorMode_eqb mode NORMAL && _); reflexivity.
  - rewrite settle_messages.
    destruct (inFlight s !! c) as [aid|]; [|exists []; symmetry; apply app_nil_r].
    destruct outcome as [[[|c0 r]|]|err];
      try (exists []; symmetry; apply app_nil_r).
    destruct (aborted c (controllers s)); [exists []; symmetry; apply app_nil_r|].
    eexists. reflexivity.
Qed.

Lemma run_extends later s :
  ~ In Clear later -> exists tail, messages (run later s) = messages s ++ tail.
Proof.
  revert s; induction later as [|e later IH]; intros s H.
  - exists []. symmetry. apply app_nil_r.
  - cbn [run].
    destruct (IH (step e s)) as [tail2 E2]; [intros F; apply H; right; exact F|].
    destruct (step_extends e s) as [tail1 E1]; [intros ->; apply H; left; reflexivity|].
    exists (tail1 ++ tail2). rewrite E2, E1, app_assoc. reflexivity.
Qed.

(** The reply to the current request is appended. *)
Lemma settle_current c c0 rest s :
  Current s -> abortControllerRef s = Some c ->
  exists aid,
    inFlight s !! c = Some aid /\
    messages (step (Settle c (Reply (Some (c0 :: rest)))) s)
    = messages s ++ [mkMessage (IdTime aid) model (c0 :: rest)].
Proof.
  intros C R. destruct (current_in_flight _ C c R) as [[aid F] A].
  exists aid. split; [exact F|]. rewrite settle_messages, F, A. reflexivity.
Qed.

(** C10, as stated, fails: the history is appended to without any
    successful reply.  The user's message enters it when the request is
    sent, and stays when the request fails. *)
Lemma history_appended_without_reply :
  ~ (forall events,
       (forall c text, ~ In (Settle c (Reply text)) events) ->
       historyOf (messages (run events initial)) = historyOf (messages initial)).
Proof.
  intros H. specialize (H failedExchange).
  assert (historyOf (messages (run failedExchange initial))
          = historyOf (messages initial)) as E.
  { apply H. intros c text [F|[F|[]]]; discriminate F. }
  vm_compute in E. discriminate E.
Qed.

(** C10, amended.  In every state the session reaches: a request in flight
    that is not the current one has its controller aborted, and sending a
    new request aborts the controller of the current one; when a request
    settles, nothing is appended if it failed, if its controller is
    aborted, or if it has been superseded, and otherwise at most the reply
    is appended, as one model message; sending appends at most the user's
    message.  A send starts a request unless it is a plain send whose text
    is blank or is the developer word: it then appends the user's message
    to the messages, and so to the history, at once, makes a fresh
    controller the current one and leaves the controller of every request
    in flight before it aborted.  The reply to the current request, when
    it is not empty, is appended as one model message.  What is in the
    messages stays there, in its place, through every send and every
    settlement, whatever their outcome; a clear alone removes it, and
    leaves the welcome message. *)
Theorem session_history (events : list Event) :
  let s := run events initial in
  (forall c a, inFlight s !! c = Some a -> abortControllerRef s <> Some c ->
     aborted c (controllers s) = true) /\
  (forall now text mode c,
     abortControllerRef s = Some c ->
     abortControllerRef (step (Send now text mode) s) <> Some c ->
     aborted c (controllers (step (Send now text mode) s)) = true) /\
  (forall c err, messages (step (Settle c (Failure err)) s) = messages s) /\
  (forall c text, aborted c (controllers s) = true ->
     messages (step (Settle c (Reply text)) s) = messages s) /\
  (forall c a text, inFlight s !! c = Some a -> abortControllerRef s <> Some c ->
     messages (step (Settle c (Reply text)) s) = messages s) /\
  (forall c outcome,
     messages (step (Settle c outcome) s) = messages s \/
     exists aid text,
       outcome = Reply (Some text) /\ inFlight s !! c = Some aid /\
       aborted c (controllers s) = false /\
       messages (step (Settle c outcome) s)
       = messages s ++ [mkMessage (IdTime aid) model text]) /\
  (forall now text mode,
     messages (step (Send now text mode) s) = messages s \/
     messages (step (Send now text mode) s)
     = messages s ++ [mkMessage (IdTime now) user (displayContent text mode)]) /\
  (forall now text mode,
     mode <> NORMAL \/ (trim text <> [] /\ toLowerCase (trim text) <> lit "dain") ->
     messages (step (Send now text mode) s)
     = messages s ++ [mkMessage (IdTime now) user (displayContent text mode)] /\
     historyOf (messages (step (Send now text mode) s))
     = historyOf (messages s) ++ [(user, displayContent text mode)] /\
     abortControllerRef (step (Send now text mode) s) = Some (length (controllers s)) /\
     aborted (length (controllers s)) (controllers (step (Send now text mode) s)) = false /\
     (forall c, abortControllerRef s = Some c ->
        aborted c (controllers (step (Send now text mode) s)) = true) /\
     (forall c a, inFlight s !! c = Some a ->
        aborted c (controllers (step (Send now text mode) s)) = true)) /\
  (forall c c0 rest,
     abortControllerRef s = Some c ->
     exists aid,
       inFlight s !! c = Some aid /\
       messages (step (Settle c (Reply (Some (c0 :: rest)))) s)
       = messages s ++ [mkMessage (IdTime aid) model (c0 :: rest)]) /\
  (forall later, ~ In Clear later ->
     exists tail,
       messages (run later s) = messages s ++ tail /\
       historyOf (messages (run later s))
       = historyOf (messages s) ++ historyOf tail) /\
  messages (step Clear s) = [welcome].
Proof.
  intros s.
  destruct (run_current events initial initial_consistent initial_current) as [C I].
  fold s in C, I.
  split; [apply (superseded_aborted _ I)|].
  split; [|split; [|split; [|split; [|split; [|split; [|split; [|split; [|split]]]]]]]].
  - intros now text mode c R. cbn [step].
    destruct (handleSend_cases now text mode s) as [->|[(_ & Er & _)| ->]].
    + congruence.
    + rewrite Er. congruence.
    + intros _. cbn [controllers]. pose proof (current_created _ I _ R) as L.
      rewrite aborted_grow by (rewrite length_supersede; exact L).
      unfold supersede. rewrite R. apply aborted_abort, L.
  - intros c err. rewrite settle_messages. destruct (inFlight s !! c); reflexivity.
  - intros c text A. rewrite settle_messages, A.
    destruct (inFlight s !! c), text as [[|c0 rest]|]; reflexivity.
  - intros c a text F R. rewrite settle_messages, F, (superseded_aborted _ I c a F R).
    destruct text as [[|c0 rest]|]; reflexivity.
  - intros c outcome. rewrite settle_messages.
    destruct (inFlight s !! c) as [aid|]; [|left; reflexivity].
    destruct outcome as [[[|c0 rest]|]|err]; try (left; reflexivity).
    destruct (aborted c (controllers s)); [left; reflexivity|].
    right. exists aid, (c0 :: rest). auto.
  - intros now text mode. cbn [step].
    destruct (handleSend_cases now text mode s) as [->|[(Em & _)| ->]]; auto.
  - intros now text mode H. apply starts_spec in H. cbn [step].
    rewrite handleSend_starts, H.
    cbn [started messages abortControllerRef controllers].
    split; [reflexivity|]. split; [unfold historyOf; rewrite map_app; reflexivity|].
    split; [reflexivity|].
    split; [rewrite <- (length_supersede s); apply aborted_fresh|].
    assert (forall c a, inFlight s !! c = Some a ->
              aborted c (supersede s ++ [false]) = true) as A.
    { intros c a F.
      rewrite aborted_grow
        by (rewrite length_supersede; eapply flight_created; eassumption).
      eapply supersede_aborts; eassumption. }
    split; [|exact A].
    intros c R. destruct (current_in_flight _ C c R) as [[a F] _]. apply (A c a F).
  - intros c c0 rest R. apply settle_current; assumption.
  - intros later H. destruct (run_extends later s H) as [tail E].
    exists tail. split; [exact E|]. rewrite E. unfold historyOf. apply map_app.
  - reflexivity.
Qed.

(** Request B overtakes request A: A's reply is dropped, B's is kept; and
    the message of a request that failed is still the last but one after
    the next send. *)
Lemma session_history_witness :
  historyOf (messages (run overtakenExchange initial))
  = [(model, lit "Studio initialized. Ready for production.");
     (user, lit "lofi rain"); (user, lit "surf rock"); (model, lit "reply to B")] /\
  messages (step (Settle 0 (Reply (Some (lit "reply to A"))))
                 (run [Send 1000 (lit "lofi rain") NORMAL;
                       Send 2000 (lit "surf rock") NORMAL] initial))
  = messages (run [Send 1000 (lit "lofi rain") NORMAL;
                   Send 2000 (lit "surf rock") NORMAL] initial) /\
  historyOf (messages (step (Send 3000 (lit "surf rock") NORMAL)
                            (run failedExchange initial)))
  = historyOf (messages (run failedExchange initial)) ++ [(user, lit "surf rock")].
Proof.
  split; [vm_compute; reflexivity|]. split.
  - apply (proj1 (proj2 (proj2 (proj2 (proj2
             (session_history [Send 1000 (lit "lofi rain") NORMAL;
                               Send 2000 (lit "surf rock") NORMAL]))))) 0 1001%N).
    + vm_compute. reflexivity.
    + vm_compute. discriminate.
  - apply (proj1 (proj2 (proj2 (proj2 (proj2 (proj2 (proj2 (proj2
             (session_history failedExchange))))))))
             3000%N (lit "surf rock") NORMAL).
    right. split; vm_compute; discriminate.
Defined.

End SessionFacts.

(** * Further properties of the code *)

(** ** Trimmed text *)

Section TrimFacts.

Lemma skip_while_snoc p l c :
  p c = false -> exists l', skip_while p (l ++ [c]) = l' ++ [c].
Proof.
  intros Hc. induction l as [|d l IH]; cbn [app skip_while].
  - rewrite Hc. exists []. reflexivity.
  - destruct (p d); [exact IH|]. exists (d :: l). reflexivity.
Qed.

Lemma skip_while_opens s :
  skip_while is_space s = [] \/ opens_visibly (skip_while is_space s) = true.
Proof.
  destruct (skip_while is_space s) as [|c r] eqn:E; [left; reflexivity|right].
  cbn. rewrite (skip_while_head _ _ _ _ E). reflexivity.
Qed.

(** What [trim] returns is empty, or opens and ends with a character that
    is not white space. *)
Lemma trim_shape x :
  trim x = [] \/ (opens_visibly (trim x) = true /\ opens_visibly (rev (trim x)) = true).
Proof.
  unfold trim, trimEnd, trimStart.
  destruct (skip_while is_space x) as [|c r] eqn:E; [left; reflexivity|right].
  pose proof (skip_while_head _ _ _ _ E) as Hc.
  cbn [rev]. destruct (skip_while_snoc is_space (rev r) c Hc) as [l' El].
  rewrite rev_involutive. split.
  - rewrite El, rev_app_distr. cbn. rewrite Hc. reflexivity.
  - destruct (skip_while_opens (rev r ++ [c])) as [H|H]; [|exact H].
    rewrite El in H. destruct l'; discriminate H.
Qed.

Lemma trim_idempotent x : trim (trim x) = trim x.
Proof.
  destruct (trim_shape x) as [->|[H1 H2]]; [reflexivity|].
  apply opens_visibly_trim; assumption.
Qed.

Lemma skip_while_forall (P : N -> bool) p s :
  forallb P s = true -> forallb P (skip_while p s) = true.
Proof. apply skip_while_forallb. Qed.

(** [trim] only drops characters. *)
Lemma trim_forallb (P : N -> bool) x : forallb P x = true -> forallb P (trim x) = true.
Proof.
  intros H. unfold trim, trimEnd, trimStart.
  assert (forall l, forallb P l = true -> forallb P (rev l) = true) as R.
  { intros l Hl. rewrite forallb_forall in *. intros y Hy. apply Hl, in_rev, Hy. }
  apply R, skip_while_forallb, R, skip_while_forallb, H.
Qed.

Lemma take_while_forallb p s : forallb p (take_while p s) = true.
Proof.
  induction s as [|c s IH]; cbn; [reflexivity|].
  destruct (p c) eqn:E; cbn; [rewrite E, IH|]; reflexivity.
Qed.

End TrimFacts.

(** ** The mood translation *)

(** X1.  Each of the three mood values speaks only outside the band from
    30 to 70, both ends included: the tone line reads "Balanced" exactly
    when all three are inside the band, there are never more than three
    descriptors, and it is so in both revisions. *)
Theorem mood_bands (m : Mood) (structure : str) :
  (V8.moodDesc m structure = [] <->
     in_band (darkBright m) /\ in_band (cleanGritty m) /\ in_band (energy m)) /\
  (V8.orElse (join (lit ", ") (V8.moodDesc m structure)) (lit "Balanced") = lit "Balanced" <->
     in_band (darkBright m) /\ in_band (cleanGritty m) /\ in_band (energy m)) /\
  length (V8.moodDesc m structure) <= 3 /\
  (V7.moodDesc m = [] <-> V8.moodDesc m structure = []).
Proof.
  unfold V8.moodDesc, V7.moodDesc, in_band.
  destruct (Z.ltb_spec (darkBright m) 30), (Z.gtb_spec (darkBright m) 70),
    (Z.ltb_spec (cleanGritty m) 30), (Z.gtb_spec (cleanGritty m) 70),
    (Z.ltb_spec (energy m) 30), (Z.gtb_spec (energy m) 70),
    (includes (lit "EDM") structure);
    try lia;
    (split; [|split; [|split]]);
    try (cbn [app length]; lia);
    try (split; [intros E; vm_compute in E; discriminate E | lia]);
    try (split; [reflexivity | discriminate]);
    try (split; discriminate);
    try (split; [intros _; lia | reflexivity]);
    try (split; reflexivity).
Qed.

Lemma mood_bands_witness :
  V8.moodDesc (mood sampleSettings) (structure sampleSettings) = [] /\
  V7.moodDesc (mkMood 10 50 90) <> [].
Proof.
  split.
  - apply (proj1 (mood_bands (mood sampleSettings) (structure sampleSettings))).
    unfold in_band. cbn. lia.
  - intros E.
    apply (proj2 (proj2 (proj2 (mood_bands (mkMood 10 50 90) (lit "Auto"))))) in E.
    apply (proj1 (mood_bands (mkMood 10 50 90) (lit "Auto"))) in E.
    unfold in_band in E. cbn in E. lia.
Defined.

(** ** The calls of the generator *)

(** X2.  Whatever the service answers, the generator makes one call or
    two, the second only behind a failed first; every call carries the
    composed prompt, the history and the temperature it was given, is on
    one of the two models, and asks for the thinking budget exactly in
    [THINKING] mode, where the first call is on gemini-3-pro-preview
    whatever the preference; a second call is on gemini-2.5-flash without
    the search tool; and the outcome is the service's answer to the last
    call made. *)
Theorem generator_calls (Temperature Error : Type)
    (prompt : str) (mode : GeneratorMode) (settings : StudioSettings)
    (generation : Generation Temperature) (isRadioEdit hasIntro : bool)
    (lyricsLanguage : LyricsLanguage) (history : list HistoryEntry)
    (service : Service Temperature Error) (signalAborted : option bool) :
  let result := V8.generateContentResponse prompt mode settings generation isRadioEdit
                  hasIntro lyricsLanguage history service signalAborted in
  let calls := fst result in
  (exists first, calls = [first] \/
     exists second err, calls = [first; second] /\ service 0 first = Failure err /\
       callModel second = gemini_2_5_flash /\ callSearchTool second = false) /\
  Forall (fun c =>
            callMessage c
            = V8.composePrompt prompt mode settings isRadioEdit hasIntro lyricsLanguage /\
            callHistory c = history /\ callTemperature c = temperature generation /\
            (callModel c = gemini_3_pro_preview \/ callModel c = gemini_2_5_flash) /\
            callThinkingBudget c = if GeneratorMode_eqb mode THINKING
                                   then Some 32768%Z else None) calls /\
  (mode = THINKING -> option_map callModel (hd_error calls) = Some gemini_3_pro_preview) /\
  (mode <> THINKING -> modelPreference generation <> quality ->
     Forall (fun c => callModel c = gemini_2_5_flash) calls) /\
  (exists final, nth_error calls (length calls - 1) = Some final /\
     snd result = service (length calls - 1) final).
Proof.
  cbv zeta. unfold V8.generateContentResponse.
  set (finalPrompt := V8.composePrompt _ _ _ _ _ _).
  set (first := V8.createSession mode generation history finalPrompt _ _).
  set (second := V8.createSession mode generation history finalPrompt _ _).
  assert (callModel first = gemini_3_pro_preview \/ callModel first = gemini_2_5_flash) as M.
  { subst first. cbn. unfold V8.modelName.
    destruct (GeneratorMode_eqb mode THINKING), (eqb (modelPreference generation) quality);
      auto. }
  assert (mode <> THINKING -> modelPreference generation <> quality ->
          callModel first = gemini_2_5_flash) as Mf.
  { intros Hm Hq. subst first. cbn. unfold V8.modelName.
    destruct mode; try congruence; cbn;
      destruct (eqb (modelPreference generation) quality) eqn:E; try reflexivity;
      apply eqb_eq in E; congruence. }
  assert (forall c, c = first \/ c = second ->
            callMessage c = finalPrompt /\
            callHistory c = history /\ callTemperature c = temperature generation /\
            (callModel c = gemini_3_pro_preview \/ callModel c = gemini_2_5_flash) /\
            callThinkingBudget c = if GeneratorMode_eqb mode THINKING
                                   then Some 32768%Z else None) as P.
  { intros c [->| ->]; repeat split; auto. }
  destruct (service 0 first) as [text|err] eqn:S0.
  - cbn [fst snd]. split; [|split; [|split; [|split]]].
    + exists first. left. reflexivity.
    + constructor; [apply P; auto|constructor].
    + intros ->. reflexivity.
    + intros Hm Hq. constructor; [auto|constructor].
    + exists first. split; [reflexivity|]. cbn. symmetry. exact S0.
  - assert (signalAborted = Some true \/ signalAborted <> Some true) as [-> |Hs]
      by (destruct signalAborted as [[|]|]; auto; right; discriminate).
    + cbn [fst snd]. split; [|split; [|split; [|split]]].
      * exists first. left. reflexivity.
      * constructor; [apply P; auto|constructor].
      * intros ->. reflexivity.
      * intros Hm Hq. constructor; [auto|constructor].
      * exists first. split; [reflexivity|]. cbn. symmetry. exact S0.
    + assert ((match signalAborted with
               | Some true => ([first], Failure err)
               | _ => ([first; second], service 1 second)
               end) = ([first; second], service 1 second)) as ->
        by (destruct signalAborted as [[|]|]; congruence).
      cbn [fst snd]. split; [|split; [|split; [|split]]].
      * exists first. right. exists second, err. repeat split; (reflexivity || exact S0).
      * constructor; [apply P; auto|constructor; [apply P; auto|constructor]].
      * intros ->. reflexivity.
      * intros Hm Hq. constructor; [auto|constructor; [reflexivity|constructor]].
      * exists second. split; reflexivity.
Qed.

Lemma generator_calls_witness :
  map callModel
      (fst (V8.generateContentResponse (lit "rain") THINKING sampleSettings sampleGeneration
              false false ENGLISH [] flakyService None))
  = [gemini_3_pro_preview; gemini_2_5_flash] /\
  map callModel
      (fst (V8.generateContentResponse (lit "rain") NORMAL sampleSettings sampleGeneration
              false false ENGLISH [] flakyService None))
  = [gemini_2_5_flash; gemini_2_5_flash].
Proof.
  pose proof (generator_calls _ _ (lit "rain") THINKING sampleSettings sampleGeneration
                false false ENGLISH [] flakyService None) as T.
  pose proof (generator_calls _ _ (lit "rain") NORMAL sampleSettings sampleGeneration
                false false ENGLISH [] flakyService None) as U.
  cbv zeta in T, U.
  destruct T as ([first [E|(second & err & E & _ & M2 & _)]] & _ & M1 & _).
  { vm_compute in E. discriminate E. }
  destruct U as ([first' [E'|(second' & err' & E' & _)]] & _ & _ & F & _).
  { vm_compute in E'. discriminate E'. }
  specialize (M1 eq_refl). specialize (F ltac:(discriminate) ltac:(vm_compute; discriminate)).
  rewrite E in *. rewrite E' in *. cbn [map hd_error option_map] in *.
  injection M1 as ->. rewrite M2. split; [reflexivity|].
  inversion F as [|? ? F1 F']. inversion F' as [|? ? F2 _]. rewrite F1, F2. reflexivity.
Defined.

(** ** The video prompt *)

(** X3.  [generateVideoPrompt] never rejects: a failure of the service
    ends in [null].  What it resolves to is [null] or a text that is not
    empty and is trimmed, never an empty or blank text.  And of the lyrics
    only the first hundred code units reach the request. *)
Theorem video_prompt_result (Error : Type) (songTitle lyrics style : str)
    (service : ContentService Error) :
  (exists v, generateVideoPrompt songTitle lyrics style service = Resolved v /\
             forall r, v = Some r -> r <> [] /\ trim r = r) /\
  (forall err,
     service (mkContentRequest gemini_2_5_flash (videoPromptText songTitle lyrics style))
     = Failure err ->
     generateVideoPrompt songTitle lyrics style service = Resolved None) /\
  (forall lyrics', firstn 100 lyrics' = firstn 100 lyrics ->
     generateVideoPrompt songTitle lyrics' style service
     = generateVideoPrompt songTitle lyrics style service).
Proof.
  split; [|split].
  - unfold generateVideoPrompt. destruct (service _) as [[t|]|err].
    + destruct (truthy (trim t)) eqn:T; eexists; (split; [reflexivity|]);
        intros r [= <-]. split; [|apply trim_idempotent].
      destruct (trim t); discriminate.
    + eexists. split; [reflexivity|discriminate].
    + eexists. split; [reflexivity|discriminate].
  - intros err E. unfold generateVideoPrompt. rewrite E. reflexivity.
  - intros lyrics' E. unfold generateVideoPrompt, videoPromptText. rewrite E. reflexivity.
Qed.

Lemma video_prompt_result_witness :
  generateVideoPrompt (lit "Neon Rain") (lit "City lights") (lit "Deep house")
                      downContentService = Resolved None.
Proof.
  apply (proj1 (proj2 (video_prompt_result _ (lit "Neon Rain") (lit "City lights")
                         (lit "Deep house") downContentService)) App.sampleError).
  reflexivity.
Defined.

(** ** The parser as a forward scan *)

Section ScanFacts.

Lemma star_greedy_preserves (P : N -> bool) (Q : capture -> Prop) p k :
  (forall s res, forallb P s = true -> k s = Some res -> Q res) ->
  forall a res, forallb P a = true -> star_greedy p a k = Some res -> Q res.
Proof.
  intros Hk. induction a as [|x a IH]; intros res Ha; cbn [star_greedy].
  - apply Hk, Ha.
  - cbn [forallb] in Ha. apply andb_true_iff in Ha as [Hx Ha'].
    destruct (p x).
    + destruct (star_greedy p a k) as [r|] eqn:E.
      * intros [= <-]. apply (IH r Ha' eq_refl).
      * apply Hk. cbn. rewrite Hx, Ha'. reflexivity.
    + apply Hk. cbn. rewrite Hx, Ha'. reflexivity.
Qed.

Lemma forallb_firstn (P : N -> bool) n (s : str) :
  forallb P s = true -> forallb P (firstn n s) = true.
Proof.
  revert n; induction s as [|c s IH]; intros [|n]; cbn; trivial.
  intros H. apply andb_true_iff in H as [-> H]. apply IH, H.
Qed.

Lemma trim_blank c : forallb is_space c = true -> trim c = [].
Proof.
  intros H. unfold trim, trimStart.
  rewrite <- (app_nil_r c), skip_while_all by exact H. reflexivity.
Qed.

Lemma find_none_blank p0 p a :
  is_space p0 = false -> forallb is_space a = true -> find (p0 :: p) a = None.
Proof.
  intros Hp. induction a as [|c a IH]; [reflexivity|].
  cbn [forallb]. intros H. apply andb_true_iff in H as [Hc Ha].
  rewrite find_unfold. cbn [strip_prefix].
  destruct (N.eqb_spec c p0) as [->|_]; [congruence|].
  rewrite (IH Ha). reflexivity.
Qed.

(** A title header with nothing but white space behind it gives no
    title, whatever the pattern finds by backtracking. *)
Lemma titleOf_blank text b a :
  find hdrTitle text = Some (b, a) -> trimStart a = [] ->
  missing (titleOf text) = true.
Proof.
  intros F T. apply skip_while_nil in T.
  unfold titleOf, match1_trim, reTitle, hdrTitle in *. rewrite exec_header, F.
  destruct (match_here _ _) as [res|] eqn:M.
  - unfold match_here in M. cbn [run] in M. rewrite strip_prefix_app in M.
    revert M. apply (star_greedy_preserves is_space
      (fun res => missing match res with Some c => Some (trim c) | None => None end = true));
      [|exact T].
    intros s r Hs. destruct s as [|c s]; [discriminate|].
    destruct (is_dot c); [|discriminate].
    rewrite star_greedy_total. intros [= <-].
    rewrite trim_blank; [reflexivity|]. apply forallb_firstn, Hs.
  - rewrite exec_header.
    rewrite find_skip_literal by reflexivity.
    rewrite find_none_blank by (reflexivity || exact T). reflexivity.
Qed.

Lemma titleOf_scan text :
  missing (titleOf text) = missing (lineBehind hdrTitle text) /\
  (missing (titleOf text) = false -> titleOf text = lineBehind hdrTitle text).
Proof.
  unfold lineBehind. destruct (find hdrTitle text) as [[b a]|] eqn:F.
  - destruct (trimStart a) as [|c r] eqn:T.
    + rewrite (titleOf_blank _ _ _ F T). split; [reflexivity|discriminate].
    + unfold titleOf, match1_trim. rewrite (exec_title _ _ _ _ _ F T). split; reflexivity.
  - apply includes_find in F. rewrite (titleOf_no_header _ F). split; reflexivity.
Qed.

Lemma block_scan h n text :
  truthy h = true -> opens_visibly n = true ->
  match1_trim (reBlock h n) text = between h n text.
Proof.
  intros Hh Hn. unfold match1_trim, between. rewrite exec_block_between by assumption.
  destruct (find h text) as [[b s1]|]; [|reflexivity].
  destruct (find n s1) as [[blk a]|]; [|reflexivity].
  rewrite trim_trimStart. reflexivity.
Qed.

Lemma lyricsOf_scan text : lyricsOf text = restBehind hdrLyrics text.
Proof.
  unfold lyricsOf, match1_trim, restBehind. rewrite exec_lyrics.
  destruct (find hdrLyrics text) as [[b a]|]; [|reflexivity].
  rewrite trim_trimStart. reflexivity.
Qed.

End ScanFacts.

Lemma V8_parse_scan (text : str) : V8.parseSongFromText text = scanSong text.
Proof.
  rewrite V8_parse_gate. unfold scanSong.
  unfold voiceOf, rawTagsOf, styleOf, reVoice, reTags, reStyle.
  rewrite !block_scan by reflexivity. rewrite lyricsOf_scan.
  destruct (titleOf_scan text) as [Hm He].
  destruct (titleOf text) as [[|t0 t]|] eqn:Tt;
    destruct (lineBehind hdrTitle text) as [[|u0 u]|] eqn:Tl;
    try discriminate Hm; try reflexivity.
  specialize (He eq_refl). injection He as <- <-.
  destruct (between hdrStyle hdrLyrics text) as [[|s0 st]|]; try reflexivity.
  destruct (restBehind hdrLyrics text) as [[|l0 ly]|]; try reflexivity.
  destruct (between hdrTags hdrStyle text) as [block|]; [|reflexivity].
  rewrite V8_tagsOf_tagSequence. reflexivity.
Qed.

(** X4.  The parser built on five regular expressions is the forward scan
    over the five headers: the title is the trimmed rest of the first line
    with visible text behind the first title header, voice, tags and style
    are the trimmed text between the first occurrence of their header and
    the first occurrence of the next header behind it, and the lyrics are
    the trimmed rest of the text behind the first lyrics header. *)
Theorem parser_is_forward_scan (text : str) :
  V8.parseSongFromText text = scanSong text.
Proof. apply V8_parse_scan. Qed.

(** ** What a parsed song looks like *)

Section NormalForm.

Lemma strip_prefix_app_more p x y r :
  strip_prefix p x = Some r -> strip_prefix p (x ++ y) = Some (r ++ y).
Proof.
  intros H. apply strip_prefix_spec in H. subst x. rewrite <- app_assoc.
  apply strip_prefix_app.
Qed.

Lemma includes_app_r p x y : includes p x = true -> includes p (x ++ y) = true.
Proof.
  induction x as [|c x IH]; rewrite includes_unfold.
  - destruct (strip_prefix p []) as [r|] eqn:E; [|discriminate]. intros _.
    pose proof (strip_prefix_app_more _ _ y _ E) as E2. cbn [app] in E2.
    cbn [app]. rewrite includes_unfold, E2. reflexivity.
  - destruct (strip_prefix p (c :: x)) as [r|] eqn:E.
    + intros _. rewrite includes_unfold, (strip_prefix_app_more _ _ y _ E). reflexivity.
    + intros H. rewrite includes_unfold. cbn [app].
      destruct (strip_prefix p (c :: x ++ y)); [reflexivity|]. apply IH, H.
Qed.

Lemma includes_app_l p x y : includes p y = true -> includes p (x ++ y) = true.
Proof.
  intros H. induction x as [|c x IH]; [exact H|].
  rewrite includes_unfold. cbn [app].
  destruct (strip_prefix p (c :: x ++ y)); [reflexivity|exact IH].
Qed.

(** The text in front of the first occurrence holds no occurrence. *)
Lemma find_before_free p0 p s b a :
  find (p0 :: p) s = Some (b, a) -> includes (p0 :: p) b = false.
Proof.
  revert b; induction s as [|c s IH]; intros b; rewrite find_unfold.
  - destruct (strip_prefix (p0 :: p) []); [|discriminate]. intros [= <- _]. reflexivity.
  - destruct (strip_prefix (p0 :: p) (c :: s)) as [r|] eqn:E.
    + intros [= <- _]. reflexivity.
    + destruct (find (p0 :: p) s) as [[b' a']|] eqn:F; [|discriminate].
      intros [= <- <-]. rewrite includes_unfold.
      destruct (strip_prefix (p0 :: p) (c :: b')) as [r|] eqn:E'.
      * apply find_spec in F. subst s.
        change (c :: b' ++ (p0 :: p) ++ a') with ((c :: b') ++ (p0 :: p) ++ a') in E.
        rewrite (strip_prefix_app_more _ _ _ _ E') in E. discriminate E.
      * apply (IH _ eq_refl).
Qed.

Lemma take_skip_while p s : take_while p s ++ skip_while p s = s.
Proof.
  induction s as [|c s IH]; cbn; [reflexivity|].
  destruct (p c); cbn; [rewrite IH|]; reflexivity.
Qed.

(** [trim] cuts a piece out of the text. *)
Lemma trim_inside x : exists pre post, x = pre ++ trim x ++ post.
Proof.
  unfold trim, trimEnd, trimStart.
  exists (take_while is_space x), (rev (take_while is_space (rev (skip_while is_space x)))).
  rewrite <- rev_app_distr, take_skip_while, rev_involutive, take_skip_while. reflexivity.
Qed.

Lemma includes_trim p x : includes p x = false -> includes p (trim x) = false.
Proof.
  intros H. destruct (includes p (trim x)) eqn:E; [|reflexivity].
  destruct (trim_inside x) as (pre & post & X). rewrite X in H.
  rewrite (includes_app_l _ pre _ (includes_app_r _ _ post E)) in H. discriminate H.
Qed.

Lemma split_where_pieces sep s piece :
  In piece (split_where sep s) -> forallb (fun c => negb (sep c)) piece = true.
Proof.
  revert piece; induction s as [|c s IH]; intros piece; cbn [split_where].
  - intros [<-|[]]. reflexivity.
  - destruct (sep c) eqn:E.
    + intros [<-|H]; [reflexivity|apply IH, H].
    + destruct (split_where sep s) as [|first rest].
      * intros [<-|[]]. cbn. rewrite E. reflexivity.
      * intros [<-|H]; [|apply IH; right; exact H].
        cbn. rewrite E. apply IH. left. reflexivity.
Qed.

Lemma between_normal h n0 n text block :
  between h (n0 :: n) text = Some block ->
  trim block = block /\ includes (n0 :: n) block = false.
Proof.
  unfold between. destruct (find h text) as [[b s1]|]; [|discriminate].
  destruct (find (n0 :: n) s1) as [[blk a]|] eqn:F; [|discriminate].
  intros [= <-]. split; [apply trim_idempotent|].
  apply includes_trim, (find_before_free _ _ _ _ _ F).
Qed.

Lemma tagSequence_normal block :
  Forall (fun tag => tag <> [] /\ trim tag = tag /\
                     forallb (fun c => negb (is_tag_separator c)) tag = true)
         (tagSequence block).
Proof.
  apply Forall_forall. intros tag H. unfold tagSequence in H.
  apply filter_In in H as [H T]. apply in_map_iff in H as (piece & <- & H).
  split; [destruct (trim piece); discriminate|]. split; [apply trim_idempotent|].
  apply trim_forallb, (split_where_pieces _ _ _ H).
Qed.

Lemma scanSong_normal text song :
  scanSong text = Some song ->
  (title song <> [] /\ trim (title song) = title song /\
   forallb is_dot (title song) = true) /\
  (trim (voice song) = voice song /\ includes hdrTags (voice song) = false) /\
  (style song <> [] /\ trim (style song) = style song /\
   includes hdrLyrics (style song) = false) /\
  (lyrics song <> [] /\ trim (lyrics song) = lyrics song) /\
  Forall (fun tag => tag <> [] /\ trim tag = tag /\
                     forallb (fun c => negb (is_tag_separator c)) tag = true)
         (tags song).
Proof.
  unfold scanSong.
  destruct (lineBehind hdrTitle text) as [[|t0 t]|] eqn:Tt; try discriminate.
  destruct (between hdrStyle hdrLyrics text) as [[|s0 st]|] eqn:Ts; try discriminate.
  destruct (restBehind hdrLyrics text) as [[|l0 ly]|] eqn:Tl; try discriminate.
  intros [= <-]. cbn [title voice style lyrics tags].
  split; [|split; [|split; [|split]]].
  - split; [discriminate|]. unfold lineBehind in Tt.
    destruct (find hdrTitle text) as [[b a]|]; [|discriminate].
    destruct (trimStart a) as [|c r]; [discriminate|]. injection Tt as Tt.
    change (if is_dot c then c :: take_while is_dot r else [])
      with (take_while is_dot (c :: r)) in Tt.
    rewrite <- Tt. split; [apply trim_idempotent|apply trim_forallb, take_while_forallb].
  - destruct (between hdrVoice hdrTags text) as [v|] eqn:Tv.
    + apply (between_normal _ _ _ _ _ Tv).
    + split; reflexivity.
  - split; [discriminate|]. apply (between_normal _ _ _ _ _ Ts).
  - split; [discriminate|]. unfold restBehind in Tl.
    destruct (find hdrLyrics text) as [[b a]|]; [|discriminate].
    injection Tl as Tl. rewrite <- Tl. apply trim_idempotent.
  - destruct (between hdrTags hdrStyle text) as [block|]; [|constructor].
    apply tagSequence_normal.
Qed.

End NormalForm.

(** X5.  Every song the parser returns is in normal form: title, style and
    lyrics are not empty; title, voice, style and lyrics carry no white
    space at either end; the title is on one line; the voice holds no tags
    header and the style no lyrics header; and every tag is not empty, is
    trimmed and holds neither comma nor line break. *)
Theorem parsed_song_normal_form (text : str) (song : ParsedSong) :
  V8.parseSongFromText text = Some song ->
  (title song <> [] /\ trim (title song) = title song /\
   forallb is_dot (title song) = true) /\
  (trim (voice song) = voice song /\ includes hdrTags (voice song) = false) /\
  (style song <> [] /\ trim (style song) = style song /\
   includes hdrLyrics (style song) = false) /\
  (lyrics song <> [] /\ trim (lyrics song) = lyrics song) /\
  Forall (fun tag => tag <> [] /\ trim tag = tag /\
                     forallb (fun c => negb (is_tag_separator c)) tag = true)
         (tags song).
Proof. rewrite V8_parse_scan. apply scanSong_normal. Qed.

Lemma parsed_song_normal_form_witness :
  exists song, V8.parseSongFromText sampleReply = Some song /\
               trim (title song) = title song /\ length (tags song) = 3.
Proof.
  destruct (V8.parseSongFromText sampleReply) as [song|] eqn:P;
    [|vm_compute in P; discriminate P].
  exists song. split; [reflexivity|].
  split; [apply (parsed_song_normal_form sampleReply song P)|].
  vm_compute in P. injection P as <-. reflexivity.
Defined.

(** ** The message list *)

Section MessageListFacts.

Import MessageList.

Lemma find_skip_blank p0 p ws s :
  is_space p0 = false -> forallb is_space ws = true ->
  find (p0 :: p) (ws ++ s) = prepend ws (find (p0 :: p) s).
Proof.
  intros Hp. induction ws as [|c ws IH]; cbn [forallb app].
  - intros _. destruct (find (p0 :: p) s) as [[b a]|]; reflexivity.
  - intros H. apply andb_true_iff in H as [Hc Hw].
    rewrite find_unfold. cbn [strip_prefix].
    destruct (N.eqb_spec c p0) as [->|_]; [congruence|].
    rewrite (IH Hw). destruct (find (p0 :: p) s) as [[b a]|]; reflexivity.
Qed.

Lemma beforeTitle_clean content : includes hdrTitle (beforeTitle content) = false.
Proof.
  unfold beforeTitle. apply includes_trim.
  destruct (find hdrTitle content) as [[b a]|] eqn:F.
  - apply (find_before_free _ _ _ _ _ F).
  - apply includes_find, F.
Qed.

Lemma renderMessage_model i content :
  renderMessage (App.mkMessage i App.model content) =
  match V8.parseSongFromText content with
  | Some song => Some (mkRendered None (Some song))
  | None =>
      if truthy (beforeTitle content)
      then Some (mkRendered (Some (beforeTitle content)) None)
      else None
  end.
Proof.
  unfold renderMessage. cbn [App.role App.content negb andb orb].
  destruct (V8.parseSongFromText content) as [song|] eqn:P; cbn [isSome negb andb orb].
  - destruct (truthy content); reflexivity.
  - destruct content as [|c content]; [reflexivity|]. cbn [truthy negb].
    destruct (truthy (beforeTitle (c :: content))); reflexivity.
Qed.

End MessageListFacts.

(** X6.  A user message always renders to a text bubble and never to a
    song card.  A model message renders to a song card alone when it
    parses, the text in front of the title header being dropped; when it
    does not parse it renders to a bubble with the trimmed text in front
    of the first title header, or to nothing when that text is empty. *)
Theorem message_rendering (msg : App.Message) :
  (App.role msg = App.user ->
     MessageList.renderMessage msg
     = Some (MessageList.mkRendered (Some (MessageList.stripUser (App.content msg))) None)) /\
  (App.role msg = App.model ->
     MessageList.renderMessage msg =
     match V8.parseSongFromText (App.content msg) with
     | Some song => Some (MessageList.mkRendered None (Some song))
     | None =>
         if truthy (MessageList.beforeTitle (App.content msg))
         then Some (MessageList.mkRendered
                      (Some (MessageList.beforeTitle (App.content msg))) None)
         else None
     end) /\
  (forall r, MessageList.renderMessage msg = Some r ->
     MessageList.isSome (MessageList.bubble r)
     = negb (MessageList.isSome (MessageList.card r))).
Proof.
  destruct msg as [i [|] content]; cbn [App.role App.content].
  - split; [|split]; [reflexivity|discriminate|].
    intros r [= <-]. reflexivity.
  - split; [discriminate|]. split; [intros _; apply renderMessage_model|].
    intros r. rewrite renderMessage_model.
    destruct (V8.parseSongFromText content); [intros [= <-]; reflexivity|].
    destruct (truthy (MessageList.beforeTitle content)); [|discriminate].
    intros [= <-]. reflexivity.
Qed.

Lemma message_rendering_witness :
  MessageList.renderMessage (App.mkMessage App.IdInit App.user [])
  = Some (MessageList.mkRendered (Some []) None) /\
  option_map MessageList.bubble
    (MessageList.renderMessage
       (App.mkMessage App.IdInit App.model (lit "Here you go:" ++ nl ++ sampleReply)))
  = Some None.
Proof.
  split.
  - apply (proj1 (message_rendering (App.mkMessage App.IdInit App.user []))). reflexivity.
  - rewrite (proj1 (proj2 (message_rendering
               (App.mkMessage App.IdInit App.model (lit "Here you go:" ++ nl ++ sampleReply))))
               eq_refl).
    vm_compute. reflexivity.
Defined.

(** X7.  Nothing from the first title header on is ever shown as text:
    the text bubble of a model message holds no title header.  So a reply
    that opens with the title header, after white space at most, and does
    not parse is not shown at all. *)
Theorem unparsed_reply_display (i : App.MessageId) (content : str) :
  (forall r text, MessageList.renderMessage (App.mkMessage i App.model content) = Some r ->
     MessageList.bubble r = Some text -> includes hdrTitle text = false) /\
  (forall ws rest, content = ws ++ hdrTitle ++ rest -> forallb is_space ws = true ->
     V8.parseSongFromText content = None ->
     MessageList.renderMessage (App.mkMessage i App.model content) = None).
Proof.
  split.
  - intros r text. rewrite renderMessage_model.
    destruct (V8.parseSongFromText content); [intros [= <-]; discriminate|].
    destruct (truthy (MessageList.beforeTitle content)); [|discriminate].
    intros [= <-] [= <-]. apply beforeTitle_clean.
  - intros ws rest -> Hws P. rewrite renderMessage_model, P.
    unfold MessageList.beforeTitle, hdrTitle.
    rewrite find_skip_blank by (reflexivity || exact Hws).
    rewrite find_here. cbn [prepend]. rewrite app_nil_r, (trim_blank _ Hws). reflexivity.
Qed.

Lemma unparsed_reply_display_witness :
  MessageList.renderMessage
    (App.mkMessage App.IdInit App.model (nl ++ lit "## Title: Neon Rain" ++ nl ++ lit "(cut off)"))
  = None.
Proof.
  apply (proj2 (unparsed_reply_display App.IdInit
                  (nl ++ lit "## Title: Neon Rain" ++ nl ++ lit "(cut off)"))
           nl (lit " Neon Rain" ++ nl ++ lit "(cut off)")); vm_compute; reflexivity.
Defined.

(** ** What is shown of a composed prompt *)

Section StripFacts.

Import MessageList.

Lemma match_end_no_prefix l r s :
  strip_prefix l s = None -> match_end (Seq (Chars l) r) s = None.
Proof. intros H. unfold match_end. cbn [run]. rewrite H. reflexivity. Qed.

(** A stretch of text in which the pattern's opening text starts nowhere
    is kept as it is. *)
Lemma remove_all_keep l r x s :
  (forall x1 c x2, x = x1 ++ c :: x2 -> strip_prefix l (c :: x2 ++ s) = None) ->
  remove_all_from (Seq (Chars l) r) 0 (x ++ s) = x ++ remove_all_from (Seq (Chars l) r) 0 s.
Proof.
  induction x as [|c x IH]; intros H; [reflexivity|].
  cbn [app remove_all_from].
  rewrite match_end_no_prefix by (apply (H [] c x); reflexivity).
  rewrite IH; [reflexivity|]. intros x1 d x2 ->. apply (H (c :: x1) d x2). reflexivity.
Qed.

Lemma includes_suffix_none l x1 c x2 :
  includes l (x1 ++ c :: x2) = false -> strip_prefix l (c :: x2) = None.
Proof.
  induction x1 as [|d x1 IH]; cbn [app]; rewrite includes_unfold.
  - destruct (strip_prefix l (c :: x2)); [discriminate|reflexivity].
  - destruct (strip_prefix l (d :: x1 ++ c :: x2)); [discriminate|exact IH].
Qed.

Lemma remove_all_keep_field l r f s :
  existsb (N.eqb LF) l = false -> includes l f = false ->
  remove_all_from (Seq (Chars l) r) 0 (f ++ LF :: s)
  = f ++ remove_all_from (Seq (Chars l) r) 0 (LF :: s).
Proof.
  intros Hl Hf. apply remove_all_keep. intros x1 c x2 ->.
  change (c :: x2 ++ LF :: s) with ((c :: x2) ++ LF :: s).
  apply strip_prefix_before_LF; [exact Hl|]. apply (includes_suffix_none _ _ _ _ Hf).
Qed.

Lemma clear_of_suffix l x1 c x2 : clear_of l (x1 ++ c :: x2) = true -> clash l (c :: x2) = true.
Proof.
  induction x1 as [|d x1 IH]; cbn [app clear_of]; intros H;
    apply andb_true_iff in H as [H1 H2]; [exact H1|apply IH, H2].
Qed.

Lemma remove_all_keep_literal l r x s :
  clear_of l x = true ->
  remove_all_from (Seq (Chars l) r) 0 (x ++ s) = x ++ remove_all_from (Seq (Chars l) r) 0 s.
Proof.
  intros H. apply remove_all_keep. intros x1 c x2 ->.
  change (c :: x2 ++ s) with ((c :: x2) ++ s).
  apply clash_strip_prefix, (clear_of_suffix _ _ _ _ H).
Qed.

(** The settings pattern cuts the text at the first settings header. *)
Lemma search_settings s :
  search reSettings s =
  match find settingsHeader s with
  | Some (b, _) => Some (b, [])
  | None => None
  end.
Proof.
  induction s as [|c s IH].
  - reflexivity.
  - cbn [search]. rewrite find_unfold. unfold match_end, reSettings. cbn [run].
    destruct (strip_prefix settingsHeader (c :: s)) as [rest|].
    + rewrite star_greedy_total.
      assert (skip_while is_any rest = []) as ->
        by (induction rest; [reflexivity|assumption]).
      reflexivity.
    + fold reSettings. rewrite IH.
      destruct (find settingsHeader s) as [[b a]|]; reflexivity.
Qed.

(** The first occurrence of a text that opens with its only line break. *)
Lemma find_first_line_opened p d rest :
  existsb (N.eqb LF) p = false -> includes (LF :: p) d = false ->
  find (LF :: p) (d ++ (LF :: p) ++ rest) = Some (d, rest).
Proof.
  intros Hp. induction d as [|c d IH]; intros Hd.
  - exact (find_here (LF :: p) rest).
  - rewrite includes_unfold in Hd.
    destruct (strip_prefix (LF :: p) (c :: d)) eqn:E; [discriminate|].
    rewrite find_unfold.
    assert (strip_prefix (LF :: p) ((c :: d) ++ (LF :: p) ++ rest) = None) as ->.
    { cbn [app strip_prefix] in *. destruct (c =? LF)%N; [|reflexivity].
      apply strip_prefix_before_LF; assumption. }
    change ((c :: d) ++ (LF :: p) ++ rest) with (c :: (d ++ (LF :: p) ++ rest)).
    cbv iota. rewrite (IH Hd). reflexivity.
Qed.

Lemma stripUser_block d behind :
  includes (lit "[CONSTRAINT:") d = false -> includes settingsHeader d = false ->
  stripUser (d ++ settingsHeader ++ behind) = d.
Proof.
  intros Hc Hs. unfold stripUser, remove_all, reConstraint.
  change (d ++ settingsHeader ++ behind) with (d ++ LF :: (tl settingsHeader ++ behind)).
  rewrite remove_all_keep_field by (reflexivity || exact Hc).
  change (LF :: tl settingsHeader ++ behind) with (settingsHeader ++ behind).
  rewrite remove_all_keep_literal by reflexivity.
  unfold remove_first_match. rewrite search_settings.
  change settingsHeader with (LF :: tl settingsHeader) at 1 2.
  rewrite find_first_line_opened by (reflexivity || exact Hs).
  apply app_nil_r.
Qed.

Lemma studioSettingsBlock_header settings isRadioEdit hasIntro lyricsLanguage :
  exists behind,
    V8.studioSettingsBlock settings isRadioEdit hasIntro lyricsLanguage
    = settingsHeader ++ behind.
Proof. unfold V8.studioSettingsBlock. eexists. reflexivity. Qed.

End StripFacts.

(** X8.  What the message list strips from a user message is what the
    generator appends: the composed prompt is shown as the directive alone,
    provided the directive holds neither the opening of a constraint nor
    the settings header; for the five canned modes that is always so. *)
Theorem composed_prompt_display (prompt : str) (mode : GeneratorMode)
    (settings : StudioSettings) (isRadioEdit hasIntro : bool)
    (lyricsLanguage : LyricsLanguage) :
  (includes (lit "[CONSTRAINT:") (fst (V8.modeLogic prompt mode)) = false ->
   includes MessageList.settingsHeader (fst (V8.modeLogic prompt mode)) = false ->
   MessageList.stripUser
     (V8.composePrompt prompt mode settings isRadioEdit hasIntro lyricsLanguage)
   = fst (V8.modeLogic prompt mode)) /\
  (In mode [RANDOM; CRAZY; KPOP_RANDOM; KPOP_3_VOICES; TRENDING] ->
   Some (MessageList.stripUser
           (V8.composePrompt prompt mode settings isRadioEdit hasIntro lyricsLanguage))
   = lookupMode mode (fst (V8.modePrompts false))).
Proof.
  unfold V8.composePrompt.
  destruct (studioSettingsBlock_header settings isRadioEdit hasIntro lyricsLanguage)
    as [behind ->].
  split.
  - apply stripUser_block.
  - intros Hin. rewrite (modeLogic_canned prompt mode Hin). f_equal.
    apply stripUser_block;
      destruct Hin as [<-|[<-|[<-|[<-|[<-|[]]]]]]; vm_compute; reflexivity.
Qed.

Lemma composed_prompt_display_witness :
  MessageList.stripUser
    (V8.composePrompt (lit "lofi rain") NORMAL
       (mkStudio (mkMood 10 50 90) (mkVocal (lit "Male") (lit "Raspy")) (lit "EDM"))
       true true ARABIC)
  = lit "lofi rain".
Proof.
  apply (proj1 (composed_prompt_display (lit "lofi rain") NORMAL
                  (mkStudio (mkMood 10 50 90) (mkVocal (lit "Male") (lit "Raspy")) (lit "EDM"))
                  true true ARABIC)); vm_compute; reflexivity.
Defined.

(** ** The song card *)

Section SongCardFacts.

Import MessageList.

Lemma hashTag_opens t : exists name, hashTag t = HASH :: name.
Proof.
  destruct t as [|c t]; [exists []; reflexivity|]. cbn.
  destruct (N.eqb_spec c HASH) as [->|_]; eexists; reflexivity.
Qed.

Lemma tagPill_no_hash t : existsb (N.eqb HASH) t = false -> tagPill t = t.
Proof.
  induction t as [|c t IH]; [reflexivity|]. cbn [existsb tagPill].
  intros H. apply orb_false_iff in H as [Hc Ht].
  rewrite N.eqb_sym, Hc, (IH Ht). reflexivity.
Qed.

Lemma toLowerCase_length s : length (App.toLowerCase s) = length s.
Proof. apply length_map. Qed.

Lemma split_split_where sep s : split sep s = split_where (fun c => (c =? sep)%N) s.
Proof.
  induction s as [|c s IH]; [reflexivity|]. cbn [split split_where]. rewrite IH.
  reflexivity.
Qed.

Lemma absent_forallb sep t :
  existsb (N.eqb sep) t = false -> forallb (fun c => negb (c =? sep)%N) t = true.
Proof.
  induction t as [|c t IH]; [reflexivity|]. cbn [existsb forallb]. intros H.
  apply orb_false_iff in H as [Hc Ht]. rewrite N.eqb_sym, Hc, (IH Ht). reflexivity.
Qed.

(** Splitting at the separator what was joined with it gives the pieces
    back, when none of them holds the separator. *)
Lemma split_join sep piece pieces :
  Forall (fun t => existsb (N.eqb sep) t = false) (piece :: pieces) ->
  split sep (join [sep] (piece :: pieces)) = piece :: pieces.
Proof.
  rewrite split_split_where. revert piece.
  induction pieces as [|next pieces IH]; intros piece H.
  - apply split_where_last, absent_forallb. inversion H; assumption.
  - rewrite join_cons. cbn [app]. inversion H as [|? ? Hp Hr]; subst.
    rewrite split_where_piece; [|apply absent_forallb, Hp|apply N.eqb_refl].
    rewrite (IH next Hr). reflexivity.
Qed.

Lemma hashTag_idempotent t : hashTag (hashTag t) = hashTag t.
Proof. destruct (hashTag_opens t) as [name ->]. reflexivity. Qed.

Lemma hashTag_absent sep t :
  sep <> HASH -> existsb (N.eqb sep) t = false -> existsb (N.eqb sep) (hashTag t) = false.
Proof.
  intros Hs H. destruct t as [|c t]; cbn [hashTag existsb].
  - apply N.eqb_neq in Hs. rewrite Hs. reflexivity.
  - destruct (c =? HASH)%N; [exact H|]. cbn [existsb].
    apply N.eqb_neq in Hs. rewrite Hs. exact H.
Qed.

Lemma tagsString_opens song :
  tags song <> [] -> exists rest, tagsString song = HASH :: rest.
Proof.
  unfold tagsString. destruct (tags song) as [|t [|t2 ts]]; [congruence| |]; intros _.
  - apply hashTag_opens.
  - cbn [map]. rewrite join_cons. destruct (hashTag_opens t) as [name ->].
    eexists. reflexivity.
Qed.

Lemma tagsString_words song :
  tags song <> [] ->
  Forall (fun t => existsb (N.eqb SPACE) t = false) (tags song) ->
  split SPACE (tagsString song) = map hashTag (tags song).
Proof.
  unfold tagsString. destruct (tags song) as [|t ts]; [congruence|]. intros _ H.
  cbn [map]. apply (split_join SPACE).
  change (Forall (fun t => existsb (N.eqb SPACE) t = false) (map hashTag (t :: ts))).
  apply Forall_forall. intros w Hw. apply in_map_iff in Hw as (t' & <- & Ht).
  apply hashTag_absent; [discriminate|].
  rewrite Forall_forall in H. apply H, Ht.
Qed.

End SongCardFacts.

(** X9.  The tags line of the song card opens with "#" whenever the song
    has a tag.  When no tag holds a space, splitting the line at the
    spaces gives the tags back, each with one "#" in front, added where
    the model left it out: every word of the line then opens with "#".
    Adding the "#" twice adds it once: the line made from the tags as they
    stand in the line is the same line.  A pill shows the bare name of a
    tag written with or without its "#", and there are never more than
    five pills. *)
Theorem tag_display (song : ParsedSong) :
  (tags song <> [] ->
     exists rest, MessageList.tagsString song = MessageList.HASH :: rest) /\
  (tags song <> [] ->
   Forall (fun t => existsb (N.eqb MessageList.SPACE) t = false) (tags song) ->
     split MessageList.SPACE (MessageList.tagsString song)
     = map MessageList.hashTag (tags song) /\
     Forall (fun word => exists name, word = MessageList.HASH :: name)
            (split MessageList.SPACE (MessageList.tagsString song))) /\
  MessageList.tagsString
    (mkSong (title song) (voice song) (style song)
            (map MessageList.hashTag (tags song)) (lyrics song))
  = MessageList.tagsString song /\
  (forall name, existsb (N.eqb MessageList.HASH) name = false ->
     MessageList.tagPill name = name /\
     MessageList.tagPill (MessageList.HASH :: name) = name /\
     MessageList.hashTag name = MessageList.HASH :: name /\
     MessageList.hashTag (MessageList.HASH :: name) = MessageList.HASH :: name) /\
  length (MessageList.pills song) <= 5.
Proof.
  split; [apply tagsString_opens|]. split; [|split; [|split]].
  - intros Hne H. rewrite (tagsString_words song Hne H). split; [reflexivity|].
    apply Forall_forall. intros word Hw. apply in_map_iff in Hw as (t & <- & _).
    apply hashTag_opens.
  - unfold MessageList.tagsString. cbn [tags]. rewrite map_map. f_equal.
    apply map_ext. intros t. apply hashTag_idempotent.
  - intros name H. split; [apply tagPill_no_hash, H|]. split; [reflexivity|].
    split; [|reflexivity]. destruct name as [|c name]; [reflexivity|].
    cbn [existsb] in H. apply orb_false_iff in H as [Hc _].
    cbn [MessageList.hashTag]. rewrite N.eqb_sym, Hc. reflexivity.
  - unfold MessageList.pills. rewrite length_map, length_firstn. lia.
Qed.

Lemma tag_display_witness :
  split MessageList.SPACE (MessageList.tagsString oneWordTagsSong)
  = [lit "#House"; lit "#Techno"; lit "#A-Minor"] /\
  MessageList.tagPill (lit "#House") = lit "House" /\
  MessageList.hashTag (lit "House") = lit "#House".
Proof.
  split.
  - apply (proj1 (proj2 (tag_display oneWordTagsSong))).
    + discriminate.
    + repeat constructor.
  - destruct (proj1 (proj2 (proj2 (proj2 (tag_display sampleSong)))) (lit "House"))
      as (_ & P & H & _); [vm_compute; reflexivity|].
    split; [exact P|exact H].
Defined.

(** Case analysis on the comparisons of character codes in the goal. *)
Ltac compare_codes :=
  repeat (cbn [andb orb negb] in *;
          first [ reflexivity
                | lia
                | match goal with
                  | |- context [(?a <=? ?b)%N] => destruct (N.leb_spec a b)
                  | |- context [(?a =? ?b)%N] => destruct (N.eqb_spec a b)
                  end ]).

(** X10.  The stem of the download file name is as long as the title and
    holds small ASCII letters, digits and underscores only; making a stem
    of a stem changes nothing; and a title without any ASCII letter or
    digit, such as one in Arabic script, gives a stem of underscores
    alone. *)
Theorem download_file_stem (title : str) :
  length (MessageList.fileStem title) = length title /\
  forallb (fun c => ((48 <=? c) && (c <=? 57)) || ((97 <=? c) && (c <=? 122))
                    || (c =? MessageList.UNDERSCORE))%N
          (MessageList.fileStem title) = true /\
  MessageList.fileStem (MessageList.fileStem title) = MessageList.fileStem title /\
  (forallb (fun c => negb (MessageList.is_alnum c)) title = true ->
     MessageList.fileStem title = repeat MessageList.UNDERSCORE (length title)).
Proof.
  unfold MessageList.fileStem, App.toLowerCase. rewrite !map_map.
  split; [apply length_map|]. split; [|split].
  - apply forallb_forall. intros y H. apply in_map_iff in H as (c & <- & _).
    unfold MessageList.is_alnum, MessageList.UNDERSCORE.
    destruct (N.leb_spec 48 c), (N.leb_spec c 57), (N.leb_spec 65 c), (N.leb_spec c 90),
      (N.leb_spec 97 c), (N.leb_spec c 122); compare_codes.
  - apply map_ext. intros c.
    unfold MessageList.is_alnum, MessageList.UNDERSCORE.
    destruct (N.leb_spec 48 c), (N.leb_spec c 57), (N.leb_spec 65 c), (N.leb_spec c 90),
      (N.leb_spec 97 c), (N.leb_spec c 122); compare_codes.
  - intros H. induction title as [|c title IH]; [reflexivity|].
    cbn [forallb] in H. apply andb_true_iff in H as [Hc Ht]. apply negb_true_iff in Hc.
    cbn [map length repeat]. rewrite Hc, (IH Ht). reflexivity.
Qed.

Lemma download_file_stem_witness :
  MessageList.fileStem [1604; 1610; 1604]%N = lit "___" /\
  MessageList.fileName sampleSong = lit "__neon_rain_.txt".
Proof.
  split; [|vm_compute; reflexivity].
  apply (proj2 (proj2 (proj2 (download_file_stem [1604; 1610; 1604]%N)))).
  vm_compute. reflexivity.
Defined.

Section SessionTheorems.

Import stdpp.base stdpp.list stdpp.gmap.
Import App Session.

(** X11.  In every state the session reaches, the loading flag is up
    exactly when there is a current controller; the request of that
    controller is then in flight and not aborted, and when it settles,
    with a reply or with an error, the flag goes down and no controller is
    current. *)
Theorem loading_follows_current (events : list Event) :
  let s := run events initial in
  (isLoading s = true <-> exists c, abortControllerRef s = Some c) /\
  (forall c, abortControllerRef s = Some c ->
     is_Some (inFlight s !! c) /\ aborted c (controllers s) = false /\
     forall outcome,
       isLoading (step (Settle c outcome) s) = false /\
       abortControllerRef (step (Settle c outcome) s) = None).
Proof.
  intros s.
  destruct (run_current events initial initial_consistent initial_current) as [[L F] _].
  fold s in L, F. split.
  - rewrite L. destruct (abortControllerRef s) as [c|]; split; eauto; try congruence.
    intros [c H]. discriminate H.
  - intros c R. destruct (F c R) as [[aid Fc] A]. split; [eauto|]. split; [exact A|].
    intros outcome. cbn [step]. rewrite Fc. cbn [isLoading abortControllerRef].
    apply (proj1 (resume_current aid c outcome s) R).
Qed.

Lemma loading_follows_current_witness :
  isLoading (run [Send 1000 (lit "lofi rain") NORMAL] initial) = true /\
  isLoading (run failedExchange initial) = false.
Proof.
  pose proof (loading_follows_current [Send 1000 (lit "lofi rain") NORMAL]) as [L F].
  split.
  - apply L. exists 0. vm_compute. reflexivity.
  - apply (F 0 ltac:(vm_compute; reflexivity)).
Defined.

(** X12.  A request that has been superseded settles in silence: whatever
    its outcome, reply or error, the messages, the toast, the loading flag,
    the current controller and the controllers stay as they are; the
    request merely leaves the set of requests in flight. *)
Theorem superseded_settles_in_silence (events : list Event) (c : nat) (aid : N)
    (outcome : Outcome JsError) :
  let s := run events initial in
  inFlight s !! c = Some aid -> abortControllerRef s <> Some c ->
  step (Settle c outcome) s = landed c s.
Proof.
  intros s Fc R. apply (settle_aborted c aid outcome s Fc); [|exact R].
  apply (superseded_aborted _ (run_consistent events initial initial_consistent) c aid Fc R).
Qed.

Lemma superseded_settles_in_silence_witness :
  errorToast (run [Send 1000 (lit "lofi rain") NORMAL; Send 2000 (lit "surf rock") NORMAL;
                   Settle 0 (Failure sampleError)] initial) = None /\
  isLoading (run [Send 1000 (lit "lofi rain") NORMAL; Send 2000 (lit "surf rock") NORMAL;
                  Settle 0 (Failure sampleError)] initial) = true.
Proof.
  change (run [Send 1000 (lit "lofi rain") NORMAL; Send 2000 (lit "surf rock") NORMAL;
               Settle 0 (Failure sampleError)] initial)
    with (step (Settle 0 (Failure sampleError))
               (run [Send 1000 (lit "lofi rain") NORMAL;
                     Send 2000 (lit "surf rock") NORMAL] initial)).
  rewrite (superseded_settles_in_silence
             [Send 1000 (lit "lofi rain") NORMAL; Send 2000 (lit "surf rock") NORMAL]
             0 1001%N (Failure sampleError));
    [split; vm_compute; reflexivity | vm_compute; reflexivity | vm_compute; discriminate].
Defined.

(** X13.  Clearing the session leaves the welcome message alone, no toast
    and no loading, and it stays so while the requests sent before the
    clear settle, in any order and with any outcome: none of their replies
    is appended and none of their errors raises a toast. *)
Theorem clear_discards_pending (events rest : list Event) :
  let s := step Clear (run events initial) in
  forallb isSettle rest = true ->
  messages (run rest s) = [welcome] /\ errorToast (run rest s) = None /\
  isLoading (run rest s) = false /\ abortControllerRef (run rest s) = None.
Proof.
  intros s Hr.
  pose proof (clear_quiet _ (run_consistent events initial initial_consistent)) as Q.
  destruct (settles_quiet rest s Hr Q) as (Em & Et & El & Qr & _).
  rewrite Em, Et, El, Qr. repeat split.
Qed.

Lemma clear_discards_pending_witness :
  messages (run [Send 1000 (lit "lofi rain") NORMAL; Clear;
                 Settle 0 (Reply (Some (lit "late reply")))] initial) = [welcome].
Proof.
  apply (clear_discards_pending [Send 1000 (lit "lofi rain") NORMAL]
           [Settle 0 (Reply (Some (lit "late reply")))]).
  reflexivity.
Defined.

(** X14.  But for a clear, the messages only grow, and by one message at
    most per event: sending appends at most a user message, settling at
    most a model message; nothing that is in the list is changed or
    removed. *)
Theorem messages_append_only (e : Event) (s : State) :
  e <> Clear ->
  messages (step e s) = messages s \/
  exists m, messages (step e s) = messages s ++ [m] /\
            role m = if isSettle e then model else user.
Proof.
  intros He. destruct e as [now text mode|c outcome|]; [| |contradiction].
  - cbn [step isSettle]. rewrite handleSend_starts. destruct (starts text mode).
    + right. eexists. split; reflexivity.
    + left. destruct (GeneratorMode_eqb mode NORMAL && _); reflexivity.
  - rewrite settle_messages. cbn [isSettle].
    destruct (inFlight s !! c) as [aid|]; [|left; reflexivity].
    destruct outcome as [[[|c0 r]|]|err]; try (left; reflexivity).
    destruct (aborted c (controllers s)); [left; reflexivity|].
    right. eexists. split; reflexivity.
Qed.

Lemma messages_append_only_witness :
  length (messages (step (Send 1000 (lit "lofi rain") NORMAL) initial)) = 2.
Proof.
  destruct (messages_append_only (Send 1000 (lit "lofi rain") NORMAL) initial)
    as [E|(m & E & _)]; [discriminate| |].
  - vm_compute in E. discriminate E.
  - rewrite E, length_app. reflexivity.
Defined.

(** X15.  A mode button starts a request whatever the text is, empty
    included; a plain send starts one exactly when the text is not blank
    and is not the word "dain" in any case.  A send that starts nothing
    leaves the messages, the controllers and the requests in flight alone:
    it does not abort the request under way. *)
Theorem send_starts (now : N) (text : str) (mode : GeneratorMode) (s : State) :
  (starts text mode = true <->
     mode <> NORMAL \/
     (trim text <> [] /\ toLowerCase (trim text) <> lit "dain")) /\
  (starts text mode = true -> handleSend now text mode s = started now text mode s) /\
  (starts text mode = false ->
     messages (handleSend now text mode s) = messages s /\
     abortControllerRef (handleSend now text mode s) = abortControllerRef s /\
     controllers (handleSend now text mode s) = controllers s /\
     inFlight (handleSend now text mode s) = inFlight s /\
     isLoading (handleSend now text mode s) = isLoading s).
Proof.
  split; [|split].
  - unfold starts. remember (trim text) as T eqn:ET.
    remember (toLowerCase T) as L eqn:EL. remember (lit "dain") as dn eqn:Edn.
    clear ET EL Edn. pose proof (js_eqb_spec L dn) as D.
    destruct (Js.eqb L dn); destruct T as [|c r]; destruct mode; cbn;
      intuition (congruence || discriminate).
  - intros H. rewrite handleSend_starts, H. reflexivity.
  - intros H. rewrite handleSend_starts, H.
    destruct (GeneratorMode_eqb mode NORMAL && _); repeat split.
Qed.

Lemma send_starts_witness :
  length (messages (handleSend 1000 [] TRENDING initial)) = 2 /\
  handleSend 1000 (lit "  ") NORMAL initial = initial /\
  messages (handleSend 1000 (lit " DaIn ") NORMAL initial) = messages initial.
Proof.
  destruct (send_starts 1000 [] TRENDING initial) as (_ & S & _).
  destruct (send_starts 1000 (lit " DaIn ") NORMAL initial) as (_ & _ & D).
  split; [rewrite (S eq_refl); reflexivity|]. split; [vm_compute; reflexivity|].
  apply D. vm_compute. reflexivity.
Defined.

End SessionTheorems.

(** ** Remixing and enhancing *)

Section ComposerFacts.

Import App Session.

Lemma remixPrompt_trim song type : trim (remixPrompt song type) = remixPrompt song type.
Proof.
  apply opens_visibly_trim; destruct type; unfold remixPrompt;
    try reflexivity;
    repeat rewrite rev_app_distr; repeat rewrite <- app_assoc;
    apply opens_visibly_app; reflexivity.
Qed.

Lemma remixPrompt_starts song type : starts (remixPrompt song type) NORMAL = true.
Proof.
  unfold starts. rewrite remixPrompt_trim. cbn [GeneratorMode_eqb andb].
  destruct (Js.eqb _ _) eqn:D.
  - apply js_eqb_spec in D. destruct type; cbn in D; discriminate D.
  - destruct type; reflexivity.
Qed.

(** X16.  A remix button always starts a request, whatever the song holds:
    the remix prompt is never blank and never the developer word, so
    [handleSend] goes past both early returns, aborts the request under
    way and appends the remix prompt, as it is, as the user's message. *)
Theorem remix_always_sends (now : N) (song : ParsedSong) (type : RemixType) (s : State) :
  handleRemix now song type s = started now (remixPrompt song type) NORMAL s /\
  messages (handleRemix now song type s)
  = messages s ++ [mkMessage (IdTime now) user (remixPrompt song type)] /\
  isLoading (handleRemix now song type s) = true /\
  controllers (handleRemix now song type s) = supersede s ++ [false].
Proof.
  unfold handleRemix. rewrite handleSend_starts, remixPrompt_starts.
  repeat split.
Qed.

(** X17.  [handleEnhance] does nothing on a blank input.  On any other
    input, and whatever happens to the composer while the service is
    awaited, it ends with the enhancing flag down.  The input is then what
    it was when the service settled, or else the text of the reply,
    trimmed and not empty: a reply without text or with blank text, and a
    failure, leave the input alone.  The toast is what it was when the
    service settled unless the service failed, and then it is one of the
    two failure messages.  The draft that is sent is the input as it was
    at the click. *)
Theorem enhance_writes_trimmed_reply (service : ContentService JsError)
    (during : Composer -> Composer) (c : Composer) :
  (trim (input c) = [] -> handleEnhance service during c = c) /\
  (trim (input c) <> [] ->
     let d := during (mkComposer (input c) true (composerToast c)) in
     let answer := service (mkContentRequest gemini_2_5_flash (enhanceStyleText (input c))) in
     let c' := handleEnhance service during c in
     isEnhancing c' = false /\
     (input c' = input d \/ (input c' <> [] /\ trim (input c') = input c')) /\
     (forall t, answer = Reply (Some t) -> trim t <> [] -> input c' = trim t) /\
     (forall t, answer = Reply (Some t) -> trim t = [] ->
        input c' = input d /\ composerToast c' = composerToast d) /\
     (answer = Reply None -> input c' = input d /\ composerToast c' = composerToast d) /\
     (forall err, answer = Failure err ->
        input c' = input d /\
        (composerToast c' = Some (lit "Missing API Key. Check Env Vars.") \/
         composerToast c' = Some (lit "Enhancement failed. Try again."))) /\
     (composerToast c' <> composerToast d -> exists err, answer = Failure err)).
Proof.
  unfold handleEnhance, enhanceStart. split.
  - intros E. rewrite E. reflexivity.
  - intros E. destruct (trim (input c)) as [|i0 i] eqn:T; [congruence|].
    cbn [truthy negb]. unfold enhanceStyle. cbv zeta.
    set (d := during (mkComposer (input c) true (composerToast c))).
    destruct (service _) as [[t|]|err]; cbn [option_map enhanceSettle].
    + destruct (trim t) as [|e0 e] eqn:Tt; cbn [input isEnhancing composerToast].
      * split; [reflexivity|]. split; [left; reflexivity|].
        split; [intros t' [= <-] H; congruence|].
        split; [intros; split; reflexivity|].
        split; [discriminate|]. split; [discriminate|congruence].
      * split; [reflexivity|]. split.
        { right. split; [discriminate|]. rewrite <- Tt. apply trim_idempotent. }
        split; [intros t' [= <-] _; symmetry; exact Tt|].
        split; [intros t' [= <-] H; congruence|].
        split; [discriminate|]. split; [discriminate|congruence].
    + cbn [input isEnhancing composerToast].
      split; [reflexivity|]. split; [left; reflexivity|].
      split; [discriminate|]. split; [discriminate|].
      split; [intros _; split; reflexivity|]. split; [discriminate|congruence].
    + cbn [input isEnhancing composerToast].
      split; [reflexivity|]. split; [left; reflexivity|].
      split; [discriminate|]. split; [discriminate|]. split; [discriminate|].
      split; [|eauto].
      intros err' _. split; [reflexivity|]. destruct (isKeyError err); auto.
Qed.

Lemma enhance_writes_trimmed_reply_witness :
  input (handleEnhance styleContentService typing (mkComposer (lit "house") false None))
  = lit "Deep house, 124 BPM, A Minor" /\
  input (handleEnhance downContentService sending (mkComposer (lit "house") false None))
  = [] /\
  handleEnhance styleContentService typing (mkComposer (lit "  ") false None)
  = mkComposer (lit "  ") false None.
Proof.
  split; [|split].
  - apply (proj1 (proj2 (proj2 (proj2 (enhance_writes_trimmed_reply
             styleContentService typing (mkComposer (lit "house") false None))
             ltac:(vm_compute; discriminate))))
             (lit " Deep house, 124 BPM, A Minor " ++ nl)).
    + reflexivity.
    + vm_compute. discriminate.
  - apply (proj1 (proj2 (proj2 (proj2 (proj2 (proj2 (proj2 (enhance_writes_trimmed_reply
             downContentService sending (mkComposer (lit "house") false None))
             ltac:(vm_compute; discriminate)))))))
             sampleError).
    reflexivity.
  - apply (proj1 (enhance_writes_trimmed_reply styleContentService typing
                    (mkComposer (lit "  ") false None))).
    vm_compute. reflexivity.
Defined.

End ComposerFacts.

(** ** The two revisions of the parser *)

Lemma replace_all_absent a b s :
  existsb (N.eqb a) s = false -> replace_all a b s = s.
Proof.
  induction s as [|c s IH]; [reflexivity|]. cbn [existsb]. intros H.
  apply Bool.orb_false_iff in H as [Hc Hs]. cbn [replace_all map].
  fold (replace_all a b s). rewrite (IH Hs), N.eqb_sym, Hc. reflexivity.
Qed.

Lemma tagsOf_one_line raw :
  existsb (N.eqb LF) raw = false -> V7.tagsOf (Some raw) = V8.tagsOf (Some raw).
Proof.
  intros H. unfold V7.tagsOf, V8.tagsOf. rewrite (replace_all_absent _ _ _ H).
  destruct raw; reflexivity.
Qed.

(** X18.  The two revisions of [parseSongFromText] accept the same texts
    and read the same title, voice, style and lyrics from them; they
    differ in the tags alone, and only when the tags block holds a line
    break: on a text whose tags block is on one line, or that has no
    tags header, they return the same song. *)
Theorem parser_revisions_agree (text : str) :
  option_map (fun song => (title song, voice song, style song, lyrics song))
             (V7.parseSongFromText text)
  = option_map (fun song => (title song, voice song, style song, lyrics song))
               (V8.parseSongFromText text) /\
  ((forall raw, rawTagsOf text = Some raw -> existsb (N.eqb LF) raw = false) ->
   V7.parseSongFromText text = V8.parseSongFromText text).
Proof.
  split; [apply V7_V8_parse_agree|]. intros H.
  rewrite V7_parse_gate, V8_parse_gate.
  destruct (rawTagsOf text) as [raw|]; [|reflexivity].
  rewrite (tagsOf_one_line raw (H raw eq_refl)). reflexivity.
Qed.

Lemma parser_revisions_agree_witness :
  V7.parseSongFromText oneLineTagsReply = V8.parseSongFromText oneLineTagsReply.
Proof.
  apply (proj2 (parser_revisions_agree oneLineTagsReply)).
  intros raw. vm_compute. intros [= <-]. reflexivity.
Defined.
